(** * IELTS realtime interview bot: retrieval subsystem and turn controller

    A shallow embedding of the JavaScript sources

    - [server/utils/pdfProcessor.js]  ([chunkText], [generateEmbeddings]),
    - [server/utils/vectorStore.js]   ([searchSimilar], [deleteDocument],
      [listDocuments], [getStats]),
    - [server/utils/retriever.js]     ([generateQueryEmbedding],
      [retrieveContext], [formatContextForAI]),
    - [server/server.js] and its earlier copy (the [/api/search] and
      [/api/realtime/call] handlers),
    - the browser client ([startTalking], [stopTalking],
      [handleRealtimeEvent] and the handlers it dispatches to),

    together with the properties the design document states about them. *)

From Stdlib Require Import ZArith List String Ascii Bool Lia Floats DecimalString.
From Equations Require Import Equations.
Import ListNotations.
Open Scope Z_scope.
Set Warnings "-register-all".

(* ================================================================== *)
(** * JavaScript strings *)
(* ================================================================== *)

(** A JavaScript string is a sequence of code units.  The model keeps the
    code units below 256, one [ascii] each, which is enough for every
    constant the sources compare against (['.'], ['\n'], [' ']). *)
Module JsString.

Definition jsstring := list ascii.

Definition of_string (s : string) : jsstring := list_ascii_of_string s.

Definition jslength (s : jsstring) : Z := Z.of_nat (List.length s).

(** The class [\s] of regular expressions, which is also the set that
    [String.prototype.trim] strips (WhiteSpace and LineTerminator),
    restricted to code units below 256: TAB, LF, VT, FF, CR, SPACE and
    NO-BREAK SPACE. *)
Definition is_space (c : ascii) : bool :=
  let n := N_of_ascii c in
  (((9 <=? n) && (n <=? 13)) || (n =? 32) || (n =? 160))%N.

Definition is_newline (c : ascii) : bool := (N_of_ascii c =? 10)%N.

Definition space : ascii := " "%char.
Definition newline : ascii := "010"%char.
Definition period : ascii := "."%char.

(** [s.replace(/p+/g, rep)]: every maximal run of characters of the
    class [p] becomes the single character [rep].  [in_run] records that
    the previous character was already part of the current run. *)
Fixpoint replace_runs_from (p : ascii -> bool) (rep : ascii)
         (in_run : bool) (s : jsstring) : jsstring :=
  match s with
  | [] => []
  | c :: r =>
      if p c
      then (if in_run then replace_runs_from p rep true r
            else rep :: replace_runs_from p rep true r)
      else c :: replace_runs_from p rep false r
  end.

Definition replace_runs (p : ascii -> bool) (rep : ascii) (s : jsstring)
  : jsstring := replace_runs_from p rep false s.

(** [s.trimStart()], [s.trimEnd()], [s.trim()]. *)
Fixpoint trimStart (s : jsstring) : jsstring :=
  match s with
  | [] => []
  | c :: r => if is_space c then trimStart r else s
  end.

Definition trimEnd (s : jsstring) : jsstring := rev (trimStart (rev s)).

Definition trim (s : jsstring) : jsstring := trimEnd (trimStart s).

(** Index arguments of [slice]: a negative index counts from the end,
    and both ends are clamped to the string. *)
Definition slice_index (len k : Z) : Z :=
  if k <? 0 then Z.max (len + k) 0 else Z.min k len.

(** [s.slice(b, e)]. *)
Definition slice (s : jsstring) (b e : Z) : jsstring :=
  let len := jslength s in
  let from := slice_index len b in
  let to := slice_index len e in
  firstn (Z.to_nat (to - from)) (skipn (Z.to_nat from) s).

(** [s.lastIndexOf(c)] for a one-character pattern: the greatest index
    holding [c], or [-1]. *)
Fixpoint lastIndexOf_from (c : ascii) (s : jsstring) (i found : Z) : Z :=
  match s with
  | [] => found
  | x :: r => lastIndexOf_from c r (i + 1) (if Ascii.eqb x c then i else found)
  end.

Definition lastIndexOf (c : ascii) (s : jsstring) : Z :=
  lastIndexOf_from c s 0 (-1).

(** [s.toLowerCase()] on code units below 256: the letters A-Z and the
    accented capitals of Latin-1 move up by 32. *)
Definition toLowerCase_char (c : ascii) : ascii :=
  let n := N_of_ascii c in
  if (((65 <=? n) && (n <=? 90))
      || ((192 <=? n) && (n <=? 222) && negb (n =? 215)))%N
  then ascii_of_N (n + 32)
  else c.

Definition toLowerCase (s : jsstring) : jsstring := map toLowerCase_char s.

(** [s.startsWith(pat)] and [s.includes(pat)]. *)
Fixpoint startsWith (s pat : jsstring) : bool :=
  match pat, s with
  | [], _ => true
  | a :: pat', b :: s' => Ascii.eqb a b && startsWith s' pat'
  | _ :: _, [] => false
  end.

Fixpoint includes (s pat : jsstring) : bool :=
  startsWith s pat
  || match s with
     | [] => false
     | _ :: r => includes r pat
     end.

End JsString.

(* ================================================================== *)
(** * Chunker: [chunkText] of pdfProcessor.js *)
(* ================================================================== *)

Module Chunker.
Import JsString.

(** The first statement of [chunkText]:
    [text.replace(/\s+/g, ' ').replace(/\n+/g, '\n').trim()]. *)
Definition cleanText (text : jsstring) : jsstring :=
  trim (replace_runs is_newline newline (replace_runs is_space space text)).

(** One pass through the body of the [while] loop, up to the update of
    [startIndex]: the value of [chunk] at that point and the new
    [startIndex].  [breakPoint > chunkSize * 0.5] is written over the
    integers as [chunkSize < 2 * breakPoint]. *)
Definition chunk_step (clean : jsstring) (chunkSize overlap startIndex : Z)
  : jsstring * Z :=
  let endIndex := Z.min (startIndex + chunkSize) (jslength clean) in
  let chunk := slice clean startIndex endIndex in
  if endIndex <? jslength clean then
    let lastPeriod := lastIndexOf period chunk in
    let lastNewline := lastIndexOf newline chunk in
    let breakPoint := Z.max lastPeriod lastNewline in
    if chunkSize <? 2 * breakPoint
    then (slice chunk 0 (breakPoint + 1), startIndex + (breakPoint + 1))
    else (chunk, startIndex + (chunkSize - overlap))
  else (chunk, jslength clean).

(** The [while (startIndex < cleanText.length)] loop, as the list of the
    windows it examines, one per iteration and in order.  The loop of
    the source has no bound of its own, so the model runs on fuel:
    [None] says the fuel ran out before the loop condition failed. *)
Fixpoint chunk_windows (fuel : nat) (clean : jsstring)
         (chunkSize overlap startIndex : Z) : option (list jsstring) :=
  if startIndex <? jslength clean then
    match fuel with
    | O => None
    | S fuel' =>
        let (chunk, next) := chunk_step clean chunkSize overlap startIndex in
        option_map (cons chunk)
                   (chunk_windows fuel' clean chunkSize overlap next)
    end
  else Some [].

(** The end of the loop body:
    [if (chunk.trim().length > 0) chunks.push(chunk.trim())]. *)
Definition push_chunk (chunk : jsstring) : list jsstring :=
  if 0 <? jslength (trim chunk) then [trim chunk] else [].

Definition pushed (windows : list jsstring) : list jsstring :=
  flat_map push_chunk windows.

(** [chunkText(text, chunkSize, overlap)]. *)
Definition chunkText_fuel (fuel : nat) (text : jsstring)
           (chunkSize overlap : Z) : option (list jsstring) :=
  option_map pushed
             (chunk_windows fuel (cleanText text) chunkSize overlap 0).

(** The number of iterations the loop makes. *)
Definition iterations_fuel (fuel : nat) (text : jsstring)
           (chunkSize overlap : Z) : option nat :=
  option_map (@List.length jsstring)
             (chunk_windows fuel (cleanText text) chunkSize overlap 0).

(** As many units of fuel as the normalized text has characters are
    enough whenever [chunkSize > overlap >= 0] (see
    [chunk_windows_enough_fuel] below). *)
Definition chunkText (text : jsstring) (chunkSize overlap : Z)
  : option (list jsstring) :=
  chunkText_fuel (List.length (cleanText text)) text chunkSize overlap.

Definition iterations (text : jsstring) (chunkSize overlap : Z)
  : option nat :=
  iterations_fuel (List.length (cleanText text)) text chunkSize overlap.

(** The default arguments [chunkSize = 1000, overlap = 200]. *)
Definition default_chunkSize : Z := 1000.
Definition default_overlap : Z := 200.

(** [ceil(a / b)] for positive [b]. *)
Definition ceil_div (a b : Z) : Z := (a + b - 1) / b.

(** The least amount by which an iteration that is not the last one
    moves [startIndex]: [chunkSize - overlap] when the window is not cut,
    and [breakPoint + 1] with [breakPoint > chunkSize / 2] when it is. *)
Definition min_advance (chunkSize overlap : Z) : Z :=
  Z.min (chunkSize - overlap) (chunkSize / 2 + 2).

(** [chunk] is the piece of [clean] that starts at index [off]. *)
Definition occurs_at (chunk clean : jsstring) (off : nat) : Prop :=
  firstn (List.length chunk) (skipn off clean) = chunk.

(** Index [i] of [clean] lies inside one of the [chunks]. *)
Definition covered (clean : jsstring) (chunks : list jsstring) (i : nat)
  : Prop :=
  exists chunk off,
    In chunk chunks /\ occurs_at chunk clean off /\
    (off <= i < off + List.length chunk)%nat.

End Chunker.


(* ================================================================== *)
(** * Values and effects of the server code *)
(* ================================================================== *)

Module Js.
Import JsString.

(** String literals of the sources. *)
Abbreviation js := of_string.

(** [`${n}`] for an integer [n]. *)
Definition Z_to_js (n : Z) : jsstring :=
  of_string (NilEmpty.string_of_int (Z.to_int n)).

(** Truthiness of a value that is a string, [undefined] or [null]:
    only a non-empty string is truthy. *)
Definition truthy (v : option jsstring) : bool :=
  match v with
  | Some (_ :: _) => true
  | _ => false
  end.

(** [a || b] on such values. *)
Definition js_or (a b : option jsstring) : option jsstring :=
  if truthy a then a else b.

(** [Array.prototype.slice(b, e)] for indices that are not negative. *)
Definition array_slice {A : Type} (l : list A) (b e : nat) : list A :=
  firstn (e - b) (skipn b l).

(** [parts.join(sep)]. *)
Fixpoint join (sep : jsstring) (parts : list jsstring) : jsstring :=
  match parts with
  | [] => []
  | [p] => p
  | p :: rest => p ++ sep ++ join sep rest
  end.

Definition jsstring_eqb (a b : jsstring) : bool :=
  if list_eq_dec ascii_dec a b then true else false.

(** [[...new Set(xs)]]: the distinct elements in first-seen order. *)
Fixpoint unique_from (seen xs : list jsstring) : list jsstring :=
  match xs with
  | [] => []
  | x :: r =>
      if existsb (jsstring_eqb x) seen then unique_from seen r
      else x :: unique_from (x :: seen) r
  end.

Definition unique (xs : list jsstring) : list jsstring := unique_from [] xs.

(** Error objects, which is what the collaborators and the sources
    throw; the sources read only [message]. *)
Record Exn := Error { message : jsstring }.

Inductive result (A : Type) : Type :=
| Ok (a : A)
| Throw (e : Exn).
Arguments Ok {A} a.
Arguments Throw {A} e.

(** An embedding is a vector of numbers. *)
Definition Embedding := list float.

(** Metadata stored with a chunk by [addDocuments]. *)
Record Metadata := {
  documentId : jsstring;
  chunkIndex : Z;
  totalChunks : Z;
  fileName : jsstring;
  uploadedAt : jsstring;
  text : jsstring
}.

(** One record of the vector storage collection. *)
Record ChunkRecord := {
  rec_id : jsstring;
  rec_embedding : Embedding;
  rec_metadata : Metadata;
  rec_document : jsstring
}.

(** The [client_secret] object of a realtime session. *)
Record ClientSecret := {
  secret_value : jsstring;
  secret_expires_at : Z
}.

(** What a call of [console.log], [console.warn] or [console.error]
    receives. *)
Inductive LogArg :=
| LStr (s : jsstring)
| LNum (n : Z)
| LExn (e : Exn)
| LSecret (c : ClientSecret).

Inductive LogLevel := Log | Warn | ErrorLevel.

Record LogLine := { level : LogLevel; args : list LogArg }.

(** The state the server code reads and writes: the console, the
    module variable [collection] of vectorStore.js (is it set?), and the
    records held by the storage collaborator. *)
Record World := {
  console : list LogLine;
  collection : bool;
  chroma : list ChunkRecord
}.

Definition with_console (c : list LogLine) (w : World) : World :=
  {| console := c; collection := collection w; chroma := chroma w |}.
Definition with_collection (b : bool) (w : World) : World :=
  {| console := console w; collection := b; chroma := chroma w |}.
Definition with_chroma (c : list ChunkRecord) (w : World) : World :=
  {| console := console w; collection := collection w; chroma := c |}.

(** Computations: they read and write the world and either return or
    throw; what was written before a throw stays written. *)
Definition M (A : Type) : Type := World -> result A * World.

Definition ret {A} (a : A) : M A := fun w => (Ok a, w).
Definition throw {A} (e : Exn) : M A := fun w => (Throw e, w).
Definition bind {A B} (m : M A) (k : A -> M B) : M B :=
  fun w => match m w with
           | (Ok a, w') => k a w'
           | (Throw e, w') => (Throw e, w')
           end.

(** [try { m } catch (error) { h error }]. *)
Definition try_catch {A} (m : M A) (h : Exn -> M A) : M A :=
  fun w => match m w with
           | (Ok a, w') => (Ok a, w')
           | (Throw e, w') => h e w'
           end.

Definition log_line (l : LogLevel) (a : list LogArg) : M unit :=
  fun w => (Ok tt, with_console (console w ++ [{| level := l; args := a |}]) w).

Definition console_log := log_line Log.
Definition console_warn := log_line Warn.
Definition console_error := log_line ErrorLevel.

(** A call that returns or throws without touching the world. *)
Definition call {A} (r : result A) : M A := fun w => (r, w).

Declare Scope js_scope.
Delimit Scope js_scope with js.
Notation "x <- m ;; k" := (bind m (fun x => k))
  (at level 61, m at next level, right associativity) : js_scope.
Notation "m ;;; k" := (bind m (fun _ => k))
  (at level 61, right associativity) : js_scope.

End Js.

(* ================================================================== *)
(** * External collaborators of the server *)
(* ================================================================== *)

Module Collaborators.
Import JsString Js.

(** The [input] field of an embedding request: one text
    ([generateQueryEmbedding]) or a batch of texts
    ([generateEmbeddings]). *)
Inductive EmbeddingInput :=
| InputText (query : jsstring)
| InputBatch (batch : list jsstring).

(** An element of [response.data]. *)
Record EmbeddingItem := { embedding : Embedding }.

(** [new OpenAI({ apiKey }).embeddings.create({ model, input })]: the
    [data] array of the response, or the error the client throws. *)
Class EmbeddingApi := {
  embeddings_create :
    jsstring -> jsstring -> EmbeddingInput -> result (list EmbeddingItem)
}.

(** One entry of the answer of [collection.query]: the values found at
    the same index of [ids[0]], [documents[0]], [metadatas[0]] and
    [distances[0]]. *)
Record QueryHit := {
  hit_id : jsstring;
  hit_document : jsstring;
  hit_metadata : Metadata;
  hit_distance : float
}.

(** The answer of [collection.get]. *)
Record GetResponse := {
  get_ids : option (list jsstring);
  get_metadatas : option (list Metadata)
}.

(** The storage client.  Each method is given the records the
    collection holds and returns its answer, or throws.  [coll_query]
    answers [None] when [results.ids] or [results.ids[0]] is missing. *)
Class StorageApi := {
  getOrCreateCollection : result unit;
  coll_query :
    list ChunkRecord -> Embedding -> Z -> result (option (list QueryHit));
  coll_get : list ChunkRecord -> option jsstring -> result GetResponse;
  coll_delete : list ChunkRecord -> list jsstring -> result (list ChunkRecord);
  coll_count : list ChunkRecord -> result Z
}.

(** The reference behaviour of the storage collaborator: the collection
    is a list of records in insertion order; [get] filters by the
    [documentId] of the metadata (or returns everything), [delete]
    removes the records whose id is listed, [count] is the number of
    records, and no call fails.  Nearest-neighbour search is left to the
    function [nearest]. *)
Definition matches (where_documentId : option jsstring) (r : ChunkRecord)
  : bool :=
  match where_documentId with
  | Some d => jsstring_eqb (documentId (rec_metadata r)) d
  | None => true
  end.

Definition reference_get (records : list ChunkRecord)
           (where_documentId : option jsstring) : GetResponse :=
  let found := filter (matches where_documentId) records in
  {| get_ids := Some (map rec_id found);
     get_metadatas := Some (map rec_metadata found) |}.

Definition reference_delete (records : list ChunkRecord)
           (ids : list jsstring) : list ChunkRecord :=
  filter (fun r => negb (existsb (jsstring_eqb (rec_id r)) ids)) records.

Definition reference_storage
           (nearest : list ChunkRecord -> Embedding -> Z -> list QueryHit)
  : StorageApi :=
  {| getOrCreateCollection := Ok tt;
     coll_query := fun records e n => Ok (Some (nearest records e n));
     coll_get := fun records w => Ok (reference_get records w);
     coll_delete := fun records ids => Ok (reference_delete records ids);
     coll_count := fun records => Ok (Z.of_nat (List.length records)) |}.

End Collaborators.

(* ================================================================== *)
(** * Embedder: [generateEmbeddings] of pdfProcessor.js *)
(* ================================================================== *)

Module Embedder.
Import JsString Js Collaborators.
Local Open Scope js_scope.

Definition embedding_model : jsstring := js "text-embedding-3-small".

Definition batchSize : nat := 20.

Section WithApi.
Context {api : EmbeddingApi}.

(** The [for (let i = 0; i < chunks.length; i += batchSize)] loop;
    [embeddings] is the array filled so far. *)
Equations? embed_batches (key : jsstring) (chunks : list jsstring)
           (i : nat) (embeddings : list Embedding) (w : World)
  : result (list Embedding) * World
  by wf (List.length chunks - i)%nat lt :=
  embed_batches key chunks i embeddings w
    with lt_dec i (List.length chunks) := {
    | right _ => (Ok embeddings, w)
    | left _
        with embeddings_create key embedding_model
               (InputBatch (array_slice chunks i (i + batchSize))) := {
        | Throw e => (Throw e, w)
        | Ok data =>
            let batchEmbeddings := map embedding data in
            let line :=
              js "Generated embeddings for chunks "
              ++ Z_to_js (Z.of_nat i + 1) ++ js "-"
              ++ Z_to_js (Z.min (Z.of_nat (i + batchSize))
                                (Z.of_nat (List.length chunks)))
              ++ js " of " ++ Z_to_js (Z.of_nat (List.length chunks)) in
            embed_batches key chunks (i + batchSize)
              (embeddings ++ batchEmbeddings)
              (with_console
                 (console w ++ [{| level := Log; args := [LStr line] |}])
                 w) } }.
Proof. unfold batchSize. lia. Qed.

(** [generateEmbeddings(chunks, apiKey)]. *)
Definition generateEmbeddings (chunks : list jsstring)
           (apiKey : option jsstring) : M (list Embedding) :=
  match apiKey with
  | Some ((_ :: _) as key) =>
      try_catch
        (embed_batches key chunks 0 [])
        (fun error =>
           console_error [LStr (js "Error generating embeddings:");
                          LExn error] ;;;
           throw (Error (js "Failed to generate embeddings")))
  | _ => throw (Error (js "API Key required for generating embeddings"))
  end.

End WithApi.
End Embedder.

(* ================================================================== *)
(** * Vector index: vectorStore.js *)
(* ================================================================== *)

Module VectorStore.
Import JsString Js Collaborators.
Local Open Scope js_scope.

(** An element of the array [searchSimilar] returns. *)
Record SearchResult := {
  sr_id : jsstring;
  sr_text : jsstring;
  sr_metadata : Metadata;
  sr_distance : float
}.

(** A row of [listDocuments]. *)
Record DocumentSummary := {
  doc_documentId : jsstring;
  doc_fileName : jsstring;
  doc_uploadedAt : jsstring;
  doc_totalChunks : Z
}.

(** The object [getStats] returns. *)
Record Stats := {
  stats_totalChunks : Z;
  stats_totalDocuments : Z;
  stats_documents : list DocumentSummary
}.

Section WithStorage.
Context {storage : StorageApi}.

(** [getCollection()]: the handle is created on first use and kept in
    the module variable [collection]. *)
Definition getCollection : M unit :=
  fun w =>
    if collection w then (Ok tt, w)
    else
      try_catch
        (call getOrCreateCollection ;;;
         (fun w' => (Ok tt, with_collection true w')) ;;;
         console_log [LStr (js "✓ ChromaDB collection initialized")])
        (fun error =>
           console_error
             [LStr (js "Error initializing ChromaDB collection:");
              LExn error] ;;;
           throw error)
        w.

Definition format_hit (h : QueryHit) : SearchResult :=
  {| sr_id := hit_id h; sr_text := hit_document h;
     sr_metadata := hit_metadata h; sr_distance := hit_distance h |}.

(** [searchSimilar(queryEmbedding, nResults = 5)]. *)
Definition searchSimilar (queryEmbedding : Embedding)
           (nResults : option Z) : M (list SearchResult) :=
  let nResults := match nResults with Some n => n | None => 5 end in
  try_catch
    (getCollection ;;;
     results <- (fun w => (coll_query (chroma w) queryEmbedding nResults, w)) ;;
     ret (match results with
          | Some hits => map format_hit hits
          | None => []
          end))
    (fun error =>
       console_error [LStr (js "Error searching vector store:");
                      LExn error] ;;;
       throw error).

(** [deleteDocument(documentId)]. *)
Definition deleteDocument (documentId : jsstring) : M unit :=
  try_catch
    (getCollection ;;;
     results <- (fun w => (coll_get (chroma w) (Some documentId), w)) ;;
     match get_ids results with
     | Some ((_ :: _) as ids) =>
         (fun w => match coll_delete (chroma w) ids with
                   | Ok records => (Ok tt, with_chroma records w)
                   | Throw e => (Throw e, w)
                   end) ;;;
         console_log
           [LStr (js "✓ Deleted document " ++ documentId ++ js " ("
                  ++ Z_to_js (Z.of_nat (List.length ids))
                  ++ js " chunks)")]
     | _ => ret tt
     end)
    (fun error =>
       console_error [LStr (js "Error deleting document:"); LExn error] ;;;
       throw error).

Definition summary (m : Metadata) : DocumentSummary :=
  {| doc_documentId := documentId m; doc_fileName := fileName m;
     doc_uploadedAt := uploadedAt m; doc_totalChunks := totalChunks m |}.

(** The [forEach] over [results.metadatas] that fills [documentsMap];
    a [Map] keeps its keys in insertion order, so it is the list of its
    entries. *)
Fixpoint group_documents
         (documentsMap : list (jsstring * DocumentSummary))
         (metadatas : list Metadata)
  : list (jsstring * DocumentSummary) :=
  match metadatas with
  | [] => documentsMap
  | m :: rest =>
      if existsb (fun entry => jsstring_eqb (fst entry) (documentId m))
                 documentsMap
      then group_documents documentsMap rest
      else group_documents (documentsMap ++ [(documentId m, summary m)])
                           rest
  end.

(** [listDocuments()]. *)
Definition listDocuments : M (list DocumentSummary) :=
  try_catch
    (getCollection ;;;
     results <- (fun w => (coll_get (chroma w) None, w)) ;;
     let documentsMap :=
       match get_metadatas results with
       | Some metadatas => group_documents [] metadatas
       | None => []
       end in
     ret (map snd documentsMap))
    (fun error =>
       console_error [LStr (js "Error listing documents:"); LExn error] ;;;
       throw error).

(** [getStats()]. *)
Definition getStats : M Stats :=
  try_catch
    (getCollection ;;;
     count <- (fun w => (coll_count (chroma w), w)) ;;
     documents <- listDocuments ;;
     ret {| stats_totalChunks := count;
            stats_totalDocuments := Z.of_nat (List.length documents);
            stats_documents := documents |})
    (fun error =>
       console_error [LStr (js "Error getting stats:"); LExn error] ;;;
       throw error).

End WithStorage.
End VectorStore.

(* ================================================================== *)
(** * Retriever: retriever.js *)
(* ================================================================== *)

Module Retriever.
Import JsString Js Collaborators VectorStore.
Local Open Scope js_scope.

(** An element of the [results] array of [retrieveContext]. *)
Record RetrievalResult := {
  r_text : jsstring;
  r_fileName : jsstring;
  r_chunkIndex : Z;
  r_relevanceScore : float
}.

(** The object [retrieveContext] returns; a property the object does
    not have is [None]. *)
Record RetrievedContext := {
  hasContext : bool;
  context : jsstring;
  sources : list jsstring;
  results : option (list RetrievalResult);
  error : option jsstring
}.

(** The object returned when retrieval finds nothing or fails. *)
Definition no_context (err : option jsstring) : RetrievedContext :=
  {| hasContext := false; context := []; sources := [];
     results := None; error := err |}.

Section WithApis.
Context {api : EmbeddingApi} {storage : StorageApi}.

(** [generateQueryEmbedding(query, apiKey)]; reading
    [response.data[0].embedding] of an empty [data] is a [TypeError]. *)
Definition generateQueryEmbedding (query : jsstring)
           (apiKey : option jsstring) : M Embedding :=
  match apiKey with
  | Some ((_ :: _) as key) =>
      try_catch
        (data <- call (embeddings_create key Embedder.embedding_model
                                         (InputText query)) ;;
         match data with
         | item :: _ => ret (embedding item)
         | [] => throw (Error (js "Cannot read properties of undefined (reading 'embedding')"))
         end)
        (fun error =>
           console_error [LStr (js "Error generating query embedding:");
                          LExn error] ;;;
           throw error)
  | _ => throw (Error (js "API Key required for generating embeddings"))
  end.

(** The template literal of [contextParts], for the result at
    [index]. *)
Definition context_part (index : nat) (result : SearchResult) : jsstring :=
  js "[Source " ++ Z_to_js (Z.of_nat index + 1) ++ js ": "
  ++ fileName (sr_metadata result) ++ js "]" ++ [newline]
  ++ sr_text result.

Fixpoint context_parts_from (index : nat) (rs : list SearchResult)
  : list jsstring :=
  match rs with
  | [] => []
  | r :: rest => context_part index r :: context_parts_from (S index) rest
  end.

Definition separator : jsstring :=
  [newline; newline] ++ js "---" ++ [newline; newline].

Definition to_result (r : SearchResult) : RetrievalResult :=
  {| r_text := sr_text r;
     r_fileName := fileName (sr_metadata r);
     r_chunkIndex := chunkIndex (sr_metadata r);
     r_relevanceScore := (1 - sr_distance r)%float |}.

(** [retrieveContext(query, topK = 3, apiKey)]. *)
Definition retrieveContext (query : jsstring) (topK : option Z)
           (apiKey : option jsstring) : M RetrievedContext :=
  let topK := match topK with Some k => k | None => 3 end in
  try_catch
    (queryEmbedding <- generateQueryEmbedding query apiKey ;;
     found <- searchSimilar queryEmbedding (Some topK) ;;
     match found with
     | [] =>
         ret {| hasContext := false; context := []; sources := [];
                results := None; error := None |}
     | _ =>
         let contextParts := context_parts_from 0 found in
         ret {| hasContext := true;
                context := join separator contextParts;
                sources :=
                  unique (map (fun r => fileName (sr_metadata r)) found);
                results := Some (map to_result found);
                error := None |}
     end)
    (fun e =>
       console_error [LStr (js "Error retrieving context:"); LExn e] ;;;
       ret {| hasContext := false; context := []; sources := [];
              results := None; error := Some (message e) |}).

(** The two steps of [retrieveContext] that can fail: embedding the
    query, then querying the index. *)
Definition retrieval_attempt (query : jsstring) (topK : option Z)
           (apiKey : option jsstring) : M (list SearchResult) :=
  queryEmbedding <- generateQueryEmbedding query apiKey ;;
  searchSimilar queryEmbedding
                (Some (match topK with Some k => k | None => 3 end)).

(** [formatContextForAI(retrievedContext)]. *)
Definition formatContextForAI (retrievedContext : RetrievedContext)
  : jsstring :=
  if negb (hasContext retrievedContext) then []
  else
    let header :=
      [newline; newline] ++ js "**AVAILABLE REFERENCE MATERIALS:**"
      ++ [newline] in
    let sources :=
      js "Sources: " ++ join (js ", ") (sources retrievedContext)
      ++ [newline; newline] in
    let content := context retrievedContext in
    let footer :=
      [newline; newline] ++ js "**INSTRUCTIONS FOR USING MATERIALS:**"
      ++ [newline]
      ++ js "- Use the above materials when relevant to the question"
      ++ [newline]
      ++ js "- Cite the source when using specific examples or information"
      ++ [newline]
      ++ js "- Combine material knowledge with general IELTS expertise"
      ++ [newline]
      ++ js "- Provide both material-based and general examples when appropriate"
      ++ [newline] in
    header ++ sources ++ content ++ footer.

End WithApis.
End Retriever.

(* ================================================================== *)
(** * HTTP handlers: server.js and its earlier copy *)
(* ================================================================== *)

Module Server.
Import JsString Js Collaborators VectorStore Retriever.
Local Open Scope js_scope.

(** JSON documents, as [res.json] writes them. *)
Inductive json :=
| JNull
| JBool (b : bool)
| JInt (n : Z)
| JNum (x : float)
| JStr (s : jsstring)
| JArr (items : list json)
| JObj (fields : list (string * json)).

(** An object literal handed to [res.json]: a property whose value is
    [undefined] is [None], and [JSON.stringify] leaves it out. *)
Definition stringify_object (props : list (string * option json)) : json :=
  JObj (flat_map (fun p => match snd p with
                           | Some v => [(fst p, v)]
                           | None => []
                           end) props).

Definition json_field (name : string) (j : json) : option json :=
  match j with
  | JObj fields =>
      option_map snd (find (fun f => String.eqb (fst f) name) fields)
  | _ => None
  end.

Record HttpResponse := { status : Z; body : json }.

(** [config] of the request body of [/api/realtime/call]. *)
Record CallConfig := {
  cfg_model : option jsstring;
  cfg_voice : option jsstring;
  cfg_instructions : option jsstring
}.

Definition empty_config : CallConfig :=
  {| cfg_model := None; cfg_voice := None; cfg_instructions := None |}.

(** What the handlers read of a request. *)
Record Request := {
  session_openaiKey : option jsstring;
  body_query : option jsstring;
  body_topK : option Z;
  body_config : option CallConfig
}.

(** The session configuration posted to the conversational
    collaborator; the remaining fields are constants. *)
Record SessionConfig := {
  sc_model : jsstring;
  sc_voice : jsstring;
  sc_instructions : jsstring
}.

(** [data] of a successful session creation. *)
Record SessionData := {
  id : jsstring;
  client_secret : ClientSecret;
  expires_at : Z
}.

(** The answer of [fetch]: [response.ok], [response.status], and what
    [response.text()] and [response.json()] give. *)
Record FetchResponse := {
  resp_ok : bool;
  resp_status : Z;
  resp_text : result jsstring;
  resp_json : result SessionData
}.

(** [fetch('https://api.openai.com/v1/realtime/sessions', ...)] with the
    bearer key and the session configuration. *)
Class RealtimeApi := {
  create_session : jsstring -> SessionConfig -> result FetchResponse
}.

Definition or_default (v : option jsstring) (d : jsstring) : jsstring :=
  match js_or v (Some d) with Some s => s | None => d end.

Definition results_json (rs : list RetrievalResult) : json :=
  JArr (map (fun r =>
               JObj [("text"%string, JStr (r_text r));
                     ("fileName"%string, JStr (r_fileName r));
                     ("chunkIndex"%string, JInt (r_chunkIndex r));
                     ("relevanceScore"%string, JNum (r_relevanceScore r))])
            rs).

Definition secret_json (c : ClientSecret) : json :=
  JObj [("value"%string, JStr (secret_value c));
        ("expires_at"%string, JInt (secret_expires_at c))].

Section WithApis.
Context {api : EmbeddingApi} {storage : StorageApi}
        {realtime : RealtimeApi}.

(** [process.env.OPENAI_API_KEY] and the constant
    [IELTS_INSTRUCTIONS]. *)
Variable OPENAI_API_KEY : option jsstring.
Variable IELTS_INSTRUCTIONS : jsstring.

(** [getApiKey(req)]. *)
Definition getApiKey (req : Request) : option jsstring :=
  js_or (session_openaiKey req) OPENAI_API_KEY.

(** [app.post('/api/search', ...)]. *)
Definition post_search (req : Request) : M HttpResponse :=
  try_catch
    (match body_query req with
     | Some ((_ :: _) as query) =>
         let topK := match body_topK req with
                     | Some k => k
                     | None => 3
                     end in
         context <- retrieveContext query (Some topK) (getApiKey req) ;;
         ret {| status := 200;
                body := stringify_object
                  [("success"%string, Some (JBool true));
                   ("query"%string, Some (JStr query));
                   ("hasContext"%string, Some (JBool (hasContext context)));
                   ("sources"%string,
                    Some (JArr (map JStr (sources context))));
                   ("results"%string,
                    option_map results_json (results context))] |}
     | _ =>
         ret {| status := 400;
                body := stringify_object
                  [("error"%string, Some (JStr (js "Query is required")))] |}
     end)
    (fun error =>
       console_error [LStr (js "Error searching:"); LExn error] ;;;
       ret {| status := 500;
              body := stringify_object
                [("error"%string, Some (JStr (js "Search failed")));
                 ("message"%string, Some (JStr (message error)))] |}).

(** The branch [if (!response.ok)] of both session handlers. *)
Definition failed_session (response : FetchResponse) : M HttpResponse :=
  errorText <- call (resp_text response) ;;
  console_error [LStr (js "OpenAI API Error:");
                 LNum (resp_status response); LStr errorText] ;;;
  ret {| status := resp_status response;
         body := stringify_object
           [("error"%string,
             Some (JStr (js "Failed to create Realtime session")));
            ("details"%string, Some (JStr errorText))] |}.

Definition session_answer (data : SessionData) : HttpResponse :=
  {| status := 200;
     body := stringify_object
       [("sessionId"%string, Some (JStr (id data)));
        ("clientSecret"%string, Some (secret_json (client_secret data)));
        ("expiresAt"%string, Some (JInt (expires_at data)))] |}.

Definition internal_error (error : Exn) : M HttpResponse :=
  console_error [LStr (js "Error creating Realtime session:");
                 LExn error] ;;;
  ret {| status := 500;
         body := stringify_object
           [("error"%string, Some (JStr (js "Internal server error")));
            ("message"%string, Some (JStr (message error)))] |}.

(** [app.post('/api/realtime/call', requireApiKey, ...)] of server.js:
    the middleware [requireApiKey], then the handler. *)
Definition post_realtime_call (req : Request) : M HttpResponse :=
  match getApiKey req with
  | Some ((_ :: _) as apiKey) =>
    try_catch
      (let config := match body_config req with
                     | Some c => c
                     | None => empty_config
                     end in
       let baseInstructions :=
         or_default (cfg_instructions config) IELTS_INSTRUCTIONS in
       enhancedInstructions <-
         try_catch
           (materialContext <-
              retrieveContext
                (js "IELTS speaking test questions and examples")
                (Some 3) (Some apiKey) ;;
            if hasContext materialContext then
              console_log
                [LStr (js "✓ Injected context from "
                       ++ Z_to_js (Z.of_nat
                            (List.length (sources materialContext)))
                       ++ js " material(s)")] ;;;
              ret (baseInstructions ++ formatContextForAI materialContext)
            else
              console_log
                [LStr (js "ℹ No materials available, using base instructions")] ;;;
              ret baseInstructions)
           (fun error =>
              console_warn
                [LStr (js "Warning: Could not retrieve context from materials:");
                 LStr (message error)] ;;;
              ret baseInstructions) ;;
       let sessionConfig :=
         {| sc_model :=
              or_default (cfg_model config)
                         (js "gpt-4o-mini-realtime-preview-2024-12-17");
            sc_voice := or_default (cfg_voice config) (js "alloy");
            sc_instructions := enhancedInstructions |} in
       console_log [LStr (js "Creating Realtime session with OpenAI...")] ;;;
       console_log [LStr (js "Model:"); LStr (sc_model sessionConfig)] ;;;
       console_log [LStr (js "Voice:"); LStr (sc_voice sessionConfig)] ;;;
       response <- call (create_session apiKey sessionConfig) ;;
       if negb (resp_ok response) then failed_session response
       else
         data <- call (resp_json response) ;;
         console_log [LStr (js "Session created successfully")] ;;;
         console_log [LStr (js "Session ID:"); LStr (id data)] ;;;
         ret (session_answer data))
      internal_error
  | _ =>
    ret {| status := 401;
           body := stringify_object
             [("error"%string, Some (JStr (js "API key not configured")));
              ("message"%string,
               Some (JStr (js "Please provide your OpenAI API key to continue")))] |}
  end.

(** [app.post('/api/realtime/call', ...)] of the earlier copy of the
    server, which has no retrieval and reads the key from the
    environment only. *)
Definition post_realtime_call_legacy (req : Request) : M HttpResponse :=
  try_catch
    (let config := match body_config req with
                   | Some c => c
                   | None => empty_config
                   end in
     match OPENAI_API_KEY with
     | Some ((_ :: _) as apiKey) =>
       let sessionConfig :=
         {| sc_model :=
              or_default (cfg_model config)
                         (js "gpt-4o-realtime-preview-2024-12-17");
            sc_voice := or_default (cfg_voice config) (js "alloy");
            sc_instructions :=
              or_default (cfg_instructions config) IELTS_INSTRUCTIONS |} in
       console_log [LStr (js "Creating Realtime session with OpenAI...")] ;;;
       console_log [LStr (js "Model:"); LStr (sc_model sessionConfig)] ;;;
       console_log [LStr (js "Voice:"); LStr (sc_voice sessionConfig)] ;;;
       response <- call (create_session apiKey sessionConfig) ;;
       if negb (resp_ok response) then failed_session response
       else
         data <- call (resp_json response) ;;
         console_log [LStr (js "Session created successfully")] ;;;
         console_log [LStr (js "Session ID:"); LStr (id data)] ;;;
         console_log [LStr (js "Client Secret:");
                      LSecret (client_secret data)] ;;;
         ret (session_answer data)
     | _ =>
       ret {| status := 500;
              body := stringify_object
                [("error"%string,
                  Some (JStr (js "OpenAI API key not configured")))] |}
     end)
    internal_error.

End WithApis.

(** A console line that was handed a session credential. *)
Definition is_secret (a : LogArg) : bool :=
  match a with
  | LSecret _ => true
  | _ => false
  end.

Definition logs_secret (l : LogLine) : bool := existsb is_secret (args l).

Definition credential_logged (w : World) : bool :=
  existsb logs_secret (console w).

(** [m] hands no credential to the console. *)
Definition quiet {A : Type} (m : M A) : Prop :=
  forall w, credential_logged w = false ->
            credential_logged (snd (m w)) = false.

End Server.

(* ================================================================== *)
(** * Turn controller: the browser client *)
(* ================================================================== *)

Module Client.
Import JsString Js.

(** Events the client sends on the data channel. *)
Inductive ClientEvent :=
| ResponseCreate            (* type: 'response.create' *)
| ResponseCancel            (* type: 'response.cancel' *)
| InputAudioBufferCommit.   (* type: 'input_audio_buffer.commit' *)

Definition ClientEvent_eq_dec (a b : ClientEvent) : {a = b} + {a <> b}.
Proof. decide equality. Defined.

(** Events the client receives on the data channel, by [event.type],
    with the fields the handlers read. *)
Inductive RealtimeEvent :=
| SessionCreated
| SessionUpdated
| ConversationItemCreated
| ResponseAudioTranscriptDelta (delta : jsstring)
| ResponseAudioTranscriptDone (transcript : jsstring)
| InputAudioTranscriptionCompleted (transcript : jsstring)
| InputAudioTranscriptionFailed
| ResponseDone
| ErrorEvent (error_message : option jsstring)
| OtherEvent (type : jsstring).

Inductive Role := system | examiner | user.

Record LogEntry := { role : Role; content : jsstring; time : jsstring }.

Inductive ReadyState := Connecting | Open | Closing | Closed.

(** The object [state]; [localStream] is the [enabled] flag of each of
    its audio tracks. *)
Record AppState := {
  peerConnection : bool;
  dataChannel : option ReadyState;
  localStream : option (list bool);
  sessionId : option jsstring;
  currentPart : Z;
  turnCount : Z;
  isConnected : bool;
  isTalking : bool;
  conversationHistory : list LogEntry
}.

(** What the handlers write of the object [elements].  The children of
    [conversationLog] repeat [conversationHistory], and the sample-answer
    panel, filled from a regular-expression match, is left out. *)
Record Elements := {
  talkButton_talking : bool;       (* class 'talking' of talkButton *)
  talkButton_text : jsstring;
  remoteAudio_muted : bool;
  currentQuestion : jsstring;
  partBadge : jsstring;
  liveTranscript : option jsstring;
  feedbackContent : option jsstring
}.

(** The page: [state], [elements], the module variable
    [currentAssistantTranscript], and the events sent so far on the data
    channel. *)
Record Page := {
  state : AppState;
  elements : Elements;
  currentAssistantTranscript : jsstring;
  sent : list ClientEvent
}.

Definition with_state (f : AppState -> AppState) (p : Page) : Page :=
  {| state := f (state p); elements := elements p;
     currentAssistantTranscript := currentAssistantTranscript p;
     sent := sent p |}.

Definition with_elements (f : Elements -> Elements) (p : Page) : Page :=
  {| state := state p; elements := f (elements p);
     currentAssistantTranscript := currentAssistantTranscript p;
     sent := sent p |}.

Definition set_transcript (t : jsstring) (p : Page) : Page :=
  {| state := state p; elements := elements p;
     currentAssistantTranscript := t; sent := sent p |}.

Definition set_sent (evs : list ClientEvent) (p : Page) : Page :=
  {| state := state p; elements := elements p;
     currentAssistantTranscript := currentAssistantTranscript p;
     sent := evs |}.

Definition set_isTalking (b : bool) (s : AppState) : AppState :=
  {| peerConnection := peerConnection s; dataChannel := dataChannel s;
     localStream := localStream s; sessionId := sessionId s;
     currentPart := currentPart s; turnCount := turnCount s;
     isConnected := isConnected s; isTalking := b;
     conversationHistory := conversationHistory s |}.

Definition set_localStream (l : option (list bool)) (s : AppState)
  : AppState :=
  {| peerConnection := peerConnection s; dataChannel := dataChannel s;
     localStream := l; sessionId := sessionId s;
     currentPart := currentPart s; turnCount := turnCount s;
     isConnected := isConnected s; isTalking := isTalking s;
     conversationHistory := conversationHistory s |}.

Definition set_dataChannel (c : option ReadyState) (s : AppState)
  : AppState :=
  {| peerConnection := peerConnection s; dataChannel := c;
     localStream := localStream s; sessionId := sessionId s;
     currentPart := currentPart s; turnCount := turnCount s;
     isConnected := isConnected s; isTalking := isTalking s;
     conversationHistory := conversationHistory s |}.

Definition set_currentPart (n : Z) (s : AppState) : AppState :=
  {| peerConnection := peerConnection s; dataChannel := dataChannel s;
     localStream := localStream s; sessionId := sessionId s;
     currentPart := n; turnCount := turnCount s;
     isConnected := isConnected s; isTalking := isTalking s;
     conversationHistory := conversationHistory s |}.

Definition set_turnCount (n : Z) (s : AppState) : AppState :=
  {| peerConnection := peerConnection s; dataChannel := dataChannel s;
     localStream := localStream s; sessionId := sessionId s;
     currentPart := currentPart s; turnCount := n;
     isConnected := isConnected s; isTalking := isTalking s;
     conversationHistory := conversationHistory s |}.

Definition set_conversationHistory (h : list LogEntry) (s : AppState)
  : AppState :=
  {| peerConnection := peerConnection s; dataChannel := dataChannel s;
     localStream := localStream s; sessionId := sessionId s;
     currentPart := currentPart s; turnCount := turnCount s;
     isConnected := isConnected s; isTalking := isTalking s;
     conversationHistory := h |}.

Definition set_talkButton (talking : bool) (label : jsstring) (e : Elements)
  : Elements :=
  {| talkButton_talking := talking; talkButton_text := label;
     remoteAudio_muted := remoteAudio_muted e;
     currentQuestion := currentQuestion e; partBadge := partBadge e;
     liveTranscript := liveTranscript e;
     feedbackContent := feedbackContent e |}.

Definition set_muted (b : bool) (e : Elements) : Elements :=
  {| talkButton_talking := talkButton_talking e;
     talkButton_text := talkButton_text e;
     remoteAudio_muted := b;
     currentQuestion := currentQuestion e; partBadge := partBadge e;
     liveTranscript := liveTranscript e;
     feedbackContent := feedbackContent e |}.

Definition set_currentQuestion (q : jsstring) (e : Elements) : Elements :=
  {| talkButton_talking := talkButton_talking e;
     talkButton_text := talkButton_text e;
     remoteAudio_muted := remoteAudio_muted e;
     currentQuestion := q; partBadge := partBadge e;
     liveTranscript := liveTranscript e;
     feedbackContent := feedbackContent e |}.

Definition set_partBadge (b : jsstring) (e : Elements) : Elements :=
  {| talkButton_talking := talkButton_talking e;
     talkButton_text := talkButton_text e;
     remoteAudio_muted := remoteAudio_muted e;
     currentQuestion := currentQuestion e; partBadge := b;
     liveTranscript := liveTranscript e;
     feedbackContent := feedbackContent e |}.

Definition set_liveTranscript (t : option jsstring) (e : Elements)
  : Elements :=
  {| talkButton_talking := talkButton_talking e;
     talkButton_text := talkButton_text e;
     remoteAudio_muted := remoteAudio_muted e;
     currentQuestion := currentQuestion e; partBadge := partBadge e;
     liveTranscript := t;
     feedbackContent := feedbackContent e |}.

Definition set_feedbackContent (t : option jsstring) (e : Elements)
  : Elements :=
  {| talkButton_talking := talkButton_talking e;
     talkButton_text := talkButton_text e;
     remoteAudio_muted := remoteAudio_muted e;
     currentQuestion := currentQuestion e; partBadge := partBadge e;
     liveTranscript := liveTranscript e;
     feedbackContent := t |}.

(** The text [Click "Start Interview" to begin...]. *)
Definition start_prompt : jsstring :=
  js "Click " ++ ["034"%char] ++ js "Start Interview" ++ ["034"%char]
  ++ js " to begin...".

(** The page as the script leaves it once loaded. *)
Definition initial_page : Page :=
  {| state :=
       {| peerConnection := false; dataChannel := None;
          localStream := None; sessionId := None;
          currentPart := 1; turnCount := 0;
          isConnected := false; isTalking := false;
          conversationHistory := [] |};
     elements :=
       {| talkButton_talking := false;
          talkButton_text := js "Hold to Talk";
          remoteAudio_muted := false;
          currentQuestion := start_prompt;
          partBadge := js "Part 1";
          liveTranscript := None;
          feedbackContent := None |};
     currentAssistantTranscript := [];
     sent := [] |}.

(** [sendEvent(event)]: the event goes out only on an open channel. *)
Definition sendEvent (event : ClientEvent) (p : Page) : Page :=
  match dataChannel (state p) with
  | Some Open => set_sent (sent p ++ [event]) p
  | _ => p
  end.

(** [addLogEntry(role, content)]; [now] is what
    [new Date().toLocaleTimeString()] gives. *)
Definition addLogEntry (now : jsstring) (r : Role) (c : jsstring) (p : Page)
  : Page :=
  with_state
    (fun s => set_conversationHistory
                (conversationHistory s
                 ++ [{| role := r; content := c; time := now |}]) s)
    p.

(** [parseFeedback(text)]. *)
Definition parseFeedback (text : jsstring) (p : Page) : Page :=
  let lowerText := toLowerCase text in
  let p :=
    if includes lowerText (js "band") || includes lowerText (js "feedback")
    then with_elements (set_feedbackContent (Some text)) p
    else p in
  if includes lowerText (js "part 2") || includes lowerText (js "task card")
  then with_elements (set_partBadge (js "Part 2"))
                     (with_state (set_currentPart 2) p)
  else if includes lowerText (js "part 3")
  then with_elements (set_partBadge (js "Part 3"))
                     (with_state (set_currentPart 3) p)
  else p.

(** [handleAssistantTranscriptDelta(delta)]. *)
Definition handleAssistantTranscriptDelta (delta : jsstring) (p : Page)
  : Page :=
  set_transcript (currentAssistantTranscript p ++ delta) p.

(** [handleAssistantTranscriptDone(transcript)]. *)
Definition handleAssistantTranscriptDone (now : jsstring)
           (transcript : jsstring) (p : Page) : Page :=
  let p := set_transcript [] p in
  let p := with_elements (set_currentQuestion transcript) p in
  let p := addLogEntry now examiner transcript p in
  parseFeedback transcript p.

(** [handleUserTranscript(transcript)]. *)
Definition handleUserTranscript (now : jsstring) (transcript : jsstring)
           (p : Page) : Page :=
  let p := with_elements (set_liveTranscript (Some transcript)) p in
  addLogEntry now user transcript p.

(** [handleRealtimeEvent(event)]. *)
Definition handleRealtimeEvent (now : jsstring) (event : RealtimeEvent)
           (p : Page) : Page :=
  match event with
  | SessionCreated | SessionUpdated => p
  | ConversationItemCreated => p
  | ResponseAudioTranscriptDelta delta =>
      handleAssistantTranscriptDelta delta p
  | ResponseAudioTranscriptDone transcript =>
      handleAssistantTranscriptDone now transcript p
  | InputAudioTranscriptionCompleted transcript =>
      handleUserTranscript now transcript p
  | InputAudioTranscriptionFailed => p
  | ResponseDone =>
      with_state (fun s => set_turnCount (turnCount s + 1) s) p
  | ErrorEvent error_message =>
      addLogEntry now system
        (js "Error: "
         ++ match js_or error_message (Some (js "Unknown error")) with
            | Some m => m
            | None => []
            end) p
  | OtherEvent _ => p
  end.

(** [startTalking()]. *)
Definition startTalking (p : Page) : Page :=
  if negb (isConnected (state p)) || isTalking (state p) then p
  else
    let p := with_state (set_isTalking true) p in
    let p := with_elements (set_talkButton true (js "Speaking...")) p in
    let p := sendEvent ResponseCancel p in
    let p := with_elements (set_muted true) p in
    let p :=
      match localStream (state p) with
      | Some tracks =>
          with_state
            (set_localStream (Some (map (fun _ => true) tracks))) p
      | None => p
      end in
    sendEvent InputAudioBufferCommit p.

(** [stopTalking()]. *)
Definition stopTalking (p : Page) : Page :=
  if negb (isConnected (state p)) || negb (isTalking (state p)) then p
  else
    let p := with_state (set_isTalking false) p in
    let p := with_elements (set_talkButton false (js "Hold to Talk")) p in
    let p := with_elements (set_muted false) p in
    sendEvent ResponseCreate p.

(** The page after a [startTalking] that passes its guard, written out
    ([startTalking_accepted] below). *)
Definition started (p : Page) : Page :=
  {| state :=
       set_localStream
         (option_map (map (fun _ => true)) (localStream (state p)))
         (set_isTalking true (state p));
     elements :=
       set_muted true (set_talkButton true (js "Speaking...") (elements p));
     currentAssistantTranscript := currentAssistantTranscript p;
     sent := sent p ++ match dataChannel (state p) with
                       | Some Open => [ResponseCancel; InputAudioBufferCommit]
                       | _ => []
                       end |}.

(** The page after a [stopTalking] that passes its guard, written out
    ([stopTalking_accepted] below). *)
Definition stopped (p : Page) : Page :=
  {| state := set_isTalking false (state p);
     elements :=
       set_muted false (set_talkButton false (js "Hold to Talk") (elements p));
     currentAssistantTranscript := currentAssistantTranscript p;
     sent := sent p ++ match dataChannel (state p) with
                       | Some Open => [ResponseCreate]
                       | _ => []
                       end |}.

(** [cleanup()]. *)
Definition cleanup (p : Page) : Page :=
  let p :=
    with_state
      (fun s =>
         {| peerConnection := false; dataChannel := None;
            localStream := None; sessionId := None;
            currentPart := currentPart s; turnCount := turnCount s;
            isConnected := false; isTalking := false;
            conversationHistory := conversationHistory s |}) p in
  with_elements
    (set_currentQuestion (start_prompt)) p.

(** What reaches the page: the outcome of [startInterview] when every
    step of it succeeds, the callbacks of the data channel, and the
    buttons. *)
Inductive Input :=
| InterviewStarted (session : jsstring) (tracks : list bool)
| ChannelOpen                        (* dataChannel.onopen *)
| ChannelMessage (event : RealtimeEvent)   (* dataChannel.onmessage *)
| ChannelError                       (* dataChannel.onerror *)
| ChannelClose                       (* dataChannel.onclose *)
| TalkButtonDown                     (* mousedown, touchstart *)
| TalkButtonUp                       (* mouseup, mouseleave, touchend *)
| StopButton.                        (* stopInterview *)

(** The writes of [startInterview] on its path without failure. *)
Definition interviewStarted (now : jsstring) (session : jsstring)
           (tracks : list bool) (p : Page) : Page :=
  let p := with_state (set_localStream (Some tracks)) p in
  let p := addLogEntry now system (js "Microphone access granted") p in
  let p :=
    with_state
      (fun s =>
         {| peerConnection := true; dataChannel := Some Connecting;
            localStream := localStream s; sessionId := Some session;
            currentPart := currentPart s; turnCount := turnCount s;
            isConnected := true; isTalking := isTalking s;
            conversationHistory := conversationHistory s |}) p in
  let p :=
    addLogEntry now system
      (js "Connected to IELTS Examiner. The interview will begin shortly.")
      p in
  with_elements
    (set_currentQuestion (js "Waiting for examiner to start...")) p.

(** One input handled to its end; no two handlers run at once. *)
Definition step (now : jsstring) (i : Input) (p : Page) : Page :=
  match i with
  | InterviewStarted session tracks => interviewStarted now session tracks p
  | ChannelOpen =>
      let p := with_state (set_dataChannel (Some Open)) p in
      let p := addLogEntry now system (js "Data channel established") p in
      sendEvent ResponseCreate p
  | ChannelMessage event => handleRealtimeEvent now event p
  | ChannelError =>
      addLogEntry now system (js "Data channel error occurred") p
  | ChannelClose =>
      addLogEntry now system (js "Data channel closed")
                  (with_state (set_dataChannel (Some Closed)) p)
  | TalkButtonDown => startTalking p
  | TalkButtonUp => stopTalking p
  | StopButton =>
      cleanup (addLogEntry now system (js "Interview ended by user") p)
  end.

(** A run: inputs with the time of day at which each is handled. *)
Fixpoint run (inputs : list (jsstring * Input)) (p : Page) : Page :=
  match inputs with
  | [] => p
  | (now, i) :: rest => run rest (step now i p)
  end.

Definition reachable (p : Page) : Prop :=
  exists inputs, p = run inputs initial_page.

End Client.

(* ================================================================== *)
(** * The turn controller of the design document *)
(* ================================================================== *)

(** The state machine that section 4.6 of the design document describes,
    written from its words, to compare the client with. *)
Module TurnSpec.

Inductive TurnState :=
| Idle
| ListeningToUser
| AwaitingAgentResponse
| AgentSpeaking.

Inductive Event :=
| channelOpened
| agentTranscriptDelta
| agentTranscriptDone
| userTranscriptDone
| startTalking
| stopTalking.

Inductive Output :=
| cancelTurn
| requestTurn
| logEntry.

(** An event that the current state does not permit is ignored. *)
Definition spec_step (q : TurnState) (e : Event) : TurnState * list Output :=
  match e, q with
  | channelOpened, Idle => (AwaitingAgentResponse, [requestTurn])
  | agentTranscriptDelta, (AwaitingAgentResponse | AgentSpeaking) =>
      (AgentSpeaking, [])
  | agentTranscriptDone, (AwaitingAgentResponse | AgentSpeaking) =>
      (Idle, [logEntry])
  | userTranscriptDone, _ => (q, [logEntry])
  | startTalking, Idle => (ListeningToUser, [])
  | startTalking, AgentSpeaking => (ListeningToUser, [cancelTurn])
  | stopTalking, ListeningToUser => (AwaitingAgentResponse, [requestTurn])
  | _, _ => (q, [])
  end.

Fixpoint spec_run (q : TurnState) (events : list Event) : TurnState :=
  match events with
  | [] => q
  | e :: rest => spec_run (fst (spec_step q e)) rest
  end.

(** The events of the design document among the inputs of the page. *)
Definition event_of (i : Client.Input) : option Event :=
  match i with
  | Client.ChannelOpen => Some channelOpened
  | Client.ChannelMessage (Client.ResponseAudioTranscriptDelta _) =>
      Some agentTranscriptDelta
  | Client.ChannelMessage (Client.ResponseAudioTranscriptDone _) =>
      Some agentTranscriptDone
  | Client.ChannelMessage (Client.InputAudioTranscriptionCompleted _) =>
      Some userTranscriptDone
  | Client.TalkButtonDown => Some startTalking
  | Client.TalkButtonUp => Some stopTalking
  | _ => None
  end.

Definition events_of (inputs : list (JsString.jsstring * Client.Input))
  : list Event :=
  flat_map (fun i => match event_of (snd i) with
                     | Some e => [e]
                     | None => []
                     end) inputs.

(** The state the design document gives the controller after a run
    that starts with the page just loaded. *)
Definition turn_state (inputs : list (JsString.jsstring * Client.Input))
  : TurnState :=
  spec_run Idle (events_of inputs).

End TurnSpec.

(* ================================================================== *)
(** * Normal form of the text the chunker works on *)
(* ================================================================== *)

Module ChunkerProps.
Import JsString.

(** Every white-space character of [s] is a space that does not follow
    another white-space character; [after_space] says whether the
    character before [s] was white space. *)
Fixpoint spaced_from (after_space : bool) (s : jsstring) : Prop :=
  match s with
  | [] => True
  | c :: r =>
      (is_space c = true -> c = space /\ after_space = false) /\
      spaced_from (is_space c) r
  end.

(** The first and the last character of [s], if any, are not white
    space. *)
Definition trimmed (s : jsstring) : Prop :=
  (forall c, hd_error s = Some c -> is_space c = false) /\
  (forall c, hd_error (rev s) = Some c -> is_space c = false).

End ChunkerProps.

From Stdlib Require Import DecimalZ.

(* ================================================================== *)
(** * Vector index: [addDocuments] of vectorStore.js *)
(* ================================================================== *)

Module VectorStoreAdd.
Import JsString Js Collaborators VectorStore.
Local Open Scope js_scope.

(** [collection.add({ ids, embeddings, metadatas, documents })]: the
    records the collection holds afterwards, or the error thrown. *)
Class StorageAddApi := {
  coll_add :
    list ChunkRecord -> list jsstring -> list Embedding -> list Metadata ->
    list jsstring -> result (list ChunkRecord)
}.

(** The template literal [`${documentId}_chunk_${index}`]. *)
Definition chunk_id (documentId : jsstring) (index : nat) : jsstring :=
  documentId ++ js "_chunk_" ++ Z_to_js (Z.of_nat index).

(** [chunks.map((_, index) => ...)], from index [index] on. *)
Fixpoint chunk_ids_from (documentId : jsstring) (index : nat)
         (chunks : list jsstring) : list jsstring :=
  match chunks with
  | [] => []
  | _ :: rest =>
      chunk_id documentId index :: chunk_ids_from documentId (S index) rest
  end.

(** The object built for the chunk at [index]; [total] is
    [chunks.length]. *)
Definition chunk_metadata (documentId fileName uploadedAt : jsstring)
           (total : nat) (index : nat) (chunk : jsstring) : Metadata :=
  {| documentId := documentId;
     chunkIndex := Z.of_nat index;
     totalChunks := Z.of_nat total;
     fileName := fileName;
     uploadedAt := uploadedAt;
     text := chunk |}.

Fixpoint chunk_metadatas_from (documentId fileName uploadedAt : jsstring)
         (total : nat) (index : nat) (chunks : list jsstring)
  : list Metadata :=
  match chunks with
  | [] => []
  | chunk :: rest =>
      chunk_metadata documentId fileName uploadedAt total index chunk
      :: chunk_metadatas_from documentId fileName uploadedAt total
                              (S index) rest
  end.

(** The records that the four arrays of an [add] describe, index by
    index. *)
Fixpoint records_of (ids : list jsstring) (embeddings : list Embedding)
         (metadatas : list Metadata) (documents : list jsstring)
  : list ChunkRecord :=
  match ids, embeddings, metadatas, documents with
  | i :: ids', e :: embeddings', m :: metadatas', d :: documents' =>
      {| rec_id := i; rec_embedding := e; rec_metadata := m;
         rec_document := d |}
      :: records_of ids' embeddings' metadatas' documents'
  | _, _, _, _ => []
  end.

(** The storage collaborator, given four arrays of one length, stores
    one record per index after those it holds. *)
Definition appends (adding : StorageAddApi) : Prop :=
  forall records ids embeddings metadatas documents,
    List.length embeddings = List.length ids ->
    List.length metadatas = List.length ids ->
    List.length documents = List.length ids ->
    coll_add records ids embeddings metadatas documents
    = Ok (records ++ records_of ids embeddings metadatas documents).

Section WithStorage.
Context {storage : StorageApi} {adding : StorageAddApi}.

(** [addDocuments(chunks, embeddings, documentId, metadata = {})];
    [now] is what [new Date().toISOString()] gives. *)
Definition addDocuments (now : jsstring) (chunks : list jsstring)
           (embeddings : list Embedding) (documentId : jsstring)
           (metadata_fileName metadata_uploadedAt : option jsstring)
  : M unit :=
  try_catch
    (getCollection ;;;
     let ids := chunk_ids_from documentId 0 chunks in
     let metadatas :=
       chunk_metadatas_from documentId
         (match js_or metadata_fileName (Some (js "unknown")) with
          | Some f => f
          | None => []
          end)
         (match js_or metadata_uploadedAt (Some now) with
          | Some u => u
          | None => []
          end)
         (List.length chunks) 0 chunks in
     (fun w => match coll_add (chroma w) ids embeddings metadatas chunks with
               | Ok records => (Ok tt, with_chroma records w)
               | Throw e => (Throw e, w)
               end) ;;;
     console_log
       [LStr (js "✓ Added " ++ Z_to_js (Z.of_nat (List.length chunks))
              ++ js " chunks from document " ++ documentId)])
    (fun error =>
       console_error
         [LStr (js "Error adding documents to vector store:");
          LExn error] ;;;
       throw error).

End WithStorage.

(** The metadata of the first record of document [k]. *)
Definition first_of (k : jsstring) (metadatas : list Metadata)
  : option Metadata :=
  find (fun m => jsstring_eqb (documentId m) k) metadatas.

(** A storage collaborator that stores what it is given. *)
Definition appending_storage : StorageAddApi :=
  {| coll_add :=
       fun records ids embeddings metadatas documents =>
         Ok (records ++ records_of ids embeddings metadatas documents) |}.

End VectorStoreAdd.

(* ================================================================== *)
(** * Retriever: [hasRelevantMaterials] of retriever.js *)
(* ================================================================== *)

Module RetrieverMore.
Import JsString Js Collaborators VectorStore Retriever.
Local Open Scope js_scope.

Section WithApis.
Context {api : EmbeddingApi} {storage : StorageApi}.

(** [hasRelevantMaterials(query, threshold = 0.7, apiKey)]; reading
    [context.results.length] of an object without [results] is a
    [TypeError]. *)
Definition hasRelevantMaterials (query : jsstring)
           (threshold : option float) (apiKey : option jsstring)
  : M bool :=
  let threshold := match threshold with
                   | Some t => t
                   | None => 0x1.6666666666666p-1%float   (* 0.7 *)
                   end in
  try_catch
    (context <- retrieveContext query (Some 1) apiKey ;;
     if negb (hasContext context) then ret false
     else
       match results context with
       | None =>
           throw (Error (js "Cannot read properties of undefined (reading 'length')"))
       | Some [] => ret false
       | Some (top :: _) =>
           ret (PrimFloat.leb threshold (r_relevanceScore top))
       end)
    (fun error =>
       console_error [LStr (js "Error checking material relevance:");
                      LExn error] ;;;
       ret false).

End WithApis.
End RetrieverMore.

(* ================================================================== *)
(** * Sample inputs *)
(* ================================================================== *)

Module Samples.
Import JsString Js Collaborators Server Client.

(** An embedding collaborator that rejects every request. *)
Definition failing_embedding_api : EmbeddingApi :=
  {| embeddings_create :=
       fun _ _ _ => Throw (Error (js "401 Incorrect API key provided")) |}.

(** An embedding collaborator that answers every request, one vector
    per input text and in the order of the request. *)
Definition sample_embed (text : jsstring) : Embedding :=
  map (fun c => if is_space c then 0%float else 1%float) text.

Definition sample_embedding_api : EmbeddingApi :=
  {| embeddings_create :=
       fun _ _ input =>
         Ok (match input with
             | InputText query => [{| embedding := sample_embed query |}]
             | InputBatch batch =>
                 map (fun t => {| embedding := sample_embed t |}) batch
             end) |}.

Definition sample_corresponds (text : jsstring) (v : Embedding) : Prop :=
  v = sample_embed text.

(** Forty-five texts: two full batches and one of five. *)
Definition sample_chunks : list jsstring :=
  map (fun n => js "chunk " ++ Z_to_js (Z.of_nat n)) (seq 0 45).

(** A storage collaborator whose search finds nothing. *)
Definition empty_storage : StorageApi := reference_storage (fun _ _ _ => []).

(** Three chunk records as [addDocuments] writes them: two of document
    [doc_1] and one of document [doc_2]. *)
Definition sample_record (doc : string) (index total : Z) (file body : string)
  : ChunkRecord :=
  {| rec_id := js doc ++ js "_chunk_" ++ Z_to_js index;
     rec_embedding := sample_embed (js body);
     rec_metadata :=
       {| documentId := js doc; chunkIndex := index; totalChunks := total;
          fileName := js file;
          uploadedAt := js "2025-01-01T00:00:00.000Z";
          text := js body |};
     rec_document := js body |}.

Definition sample_records : list ChunkRecord :=
  [sample_record "doc_1" 0 2 "notes.pdf" "Describe your hometown.";
   sample_record "doc_2" 0 1 "cards.pdf" "Talk about a book you read.";
   sample_record "doc_1" 1 2 "notes.pdf" "What do you do for work?"].

Definition indexed_world : World :=
  {| console := []; collection := true; chroma := sample_records |}.

Definition fresh_world : World :=
  {| console := []; collection := false; chroma := [] |}.

(** A conversational collaborator that creates the session. *)
Definition sample_secret : ClientSecret :=
  {| secret_value := js "ek_68af296e8e408191a1120ab6383263c2";
     secret_expires_at := 1756310470 |}.

Definition sample_session : SessionData :=
  {| id := js "sess_C9CiUVUzUzYIssh3ELY1d";
     client_secret := sample_secret;
     expires_at := 1756310470 |}.

Definition sample_realtime_api : RealtimeApi :=
  {| create_session :=
       fun _ _ => Ok {| resp_ok := true; resp_status := 200;
                        resp_text := Ok (js "{...}");
                        resp_json := Ok sample_session |} |}.

Definition call_request : Request :=
  {| session_openaiKey := None; body_query := None; body_topK := None;
     body_config :=
       Some {| cfg_model := Some (js "gpt-4o-realtime-preview-2024-12-17");
               cfg_voice := Some (js "alloy");
               cfg_instructions := None |} |}.

Definition search_request : Request :=
  {| session_openaiKey := Some (js "sk-test");
     body_query := Some (js "describe your hometown");
     body_topK := None;
     body_config := None |}.

(** Thirty characters with a period in positions 6, 13 and 20. *)
Definition bound_text : jsstring :=
  of_string "aaaaaa.aaaaaa.aaaaaa.aaaaaaaaa".

Definition gap_text : jsstring := of_string "ab cd".

(** The session is connected and the data channel has just opened: the
    opening agent turn was requested and nothing has arrived yet. *)
Definition awaiting_run : list (jsstring * Input) :=
  [(js "09:00:00", InterviewStarted (js "sess_1") [true]);
   (js "09:00:01", ChannelOpen)].

Definition awaiting_page : Page := run awaiting_run initial_page.

(** The examiner is speaking (a transcript fragment has arrived) and the
    user presses the talk button: a barge-in. *)
Definition barge_in_run : list (jsstring * Input) :=
  awaiting_run
  ++ [(js "09:00:02",
       ChannelMessage (ResponseAudioTranscriptDelta (js "Good morning")));
      (js "09:00:03", TalkButtonDown)].

Definition barge_in_page : Page := run barge_in_run initial_page.

Definition late_done : Input :=
  ChannelMessage
    (ResponseAudioTranscriptDone (js "Good morning. My name is")).

End Samples.

(* ================================================================== *)
(** * More sample inputs *)
(* ================================================================== *)

Module MoreSamples.
Import JsString Js Collaborators Server Client Samples.

(** A storage collaborator that cannot be reached. *)
Definition unreachable : Exn := Error (js "Failed to connect to chromadb").

Definition unreachable_storage : StorageApi :=
  {| getOrCreateCollection := Throw unreachable;
     coll_query := fun _ _ _ => Throw unreachable;
     coll_get := fun _ _ => Throw unreachable;
     coll_delete := fun _ _ => Throw unreachable;
     coll_count := fun _ => Throw unreachable |}.

(** Two texts to store as document [doc_3]. *)
Definition new_chunks : list jsstring :=
  [js "Do you like to travel?"; js "Describe a place you visited."].

Definition new_embeddings : list Embedding := map sample_embed new_chunks.

End MoreSamples.
(* ================================================================== *)
(** * Facts about JavaScript strings *)
(* ================================================================== *)

Module JsStringFacts.
Import JsString.

Lemma lastIndexOf_from_range (c : ascii) (s : jsstring) (i found : Z) :
  let r := lastIndexOf_from c s i found in
  r = found \/ (i <= r < i + jslength s).
Proof.
  revert i found. unfold jslength.
  induction s as [|x s IH]; intros i found; cbn [lastIndexOf_from].
  - now left.
  - specialize (IH (i + 1) (if Ascii.eqb x c then i else found)).
    cbn zeta in IH. cbn [List.length].
    destruct IH as [IH | IH].
    + rewrite IH. destruct (Ascii.eqb x c); [right; lia | now left].
    + right. lia.
Qed.

Lemma lastIndexOf_range (c : ascii) (s : jsstring) :
  -1 <= lastIndexOf c s < jslength s.
Proof.
  unfold lastIndexOf.
  pose proof (lastIndexOf_from_range c s 0 (-1)) as H. cbn zeta in H.
  unfold jslength in *. destruct H as [H | H]; lia.
Qed.

(** Inside the string [slice] is [firstn] after [skipn]. *)
Lemma slice_inside (s : jsstring) (b e : Z) :
  0 <= b -> b <= e -> e <= jslength s ->
  slice s b e = firstn (Z.to_nat (e - b)) (skipn (Z.to_nat b) s).
Proof.
  intros Hb Hbe He. unfold slice, slice_index.
  destruct (b <? 0) eqn:Eb; [apply Z.ltb_lt in Eb; lia|].
  destruct (e <? 0) eqn:Ee; [apply Z.ltb_lt in Ee; lia|].
  now rewrite !Z.min_l by lia.
Qed.

Lemma slice_inside_length (s : jsstring) (b e : Z) :
  0 <= b -> b <= e -> e <= jslength s ->
  jslength (slice s b e) = e - b.
Proof.
  intros Hb Hbe He. rewrite slice_inside by assumption.
  unfold jslength in *. rewrite length_firstn, length_skipn. lia.
Qed.

(** [trimStart] drops a prefix made of white space only. *)
Lemma trimStart_spec (s : jsstring) :
  exists j : nat,
    trimStart s = skipn j s /\ (j <= List.length s)%nat /\
    forall p c, (p < j)%nat -> nth_error s p = Some c -> is_space c = true.
Proof.
  induction s as [|x s (j & Hj & Hlen & Hsp)]; cbn [trimStart].
  - exists 0%nat. repeat split; [cbn; lia | intros; lia].
  - destruct (is_space x) eqn:Ex.
    + exists (S j). cbn [skipn List.length]. repeat split; [exact Hj | lia |].
      intros [|p] c Hp Hn; cbn in Hn.
      * now inversion Hn; subst.
      * apply (Hsp p); [lia | exact Hn].
    + exists 0%nat. repeat split; [cbn; lia | intros; lia].
Qed.

(** [trimEnd] drops a suffix made of white space only. *)
Lemma trimEnd_spec (s : jsstring) :
  exists k : nat,
    trimEnd s = firstn k s /\ (k <= List.length s)%nat /\
    forall p c, (k <= p)%nat -> nth_error s p = Some c -> is_space c = true.
Proof.
  unfold trimEnd.
  destruct (trimStart_spec (rev s)) as (j & Hj & Hlen & Hsp).
  rewrite length_rev in Hlen.
  exists (List.length s - j)%nat. repeat split.
  - rewrite Hj, skipn_rev. apply rev_involutive.
  - lia.
  - intros p c Hp Hn.
    assert (Hlt : (p < List.length s)%nat)
      by (apply nth_error_Some; congruence).
    apply (Hsp (List.length s - S p)%nat); [lia|].
    rewrite nth_error_rev.
    destruct (Nat.ltb_spec (List.length s - S p) (List.length s)); [|lia].
    replace (List.length s - S (List.length s - S p))%nat with p by lia.
    exact Hn.
Qed.

(** [trim] keeps one contiguous piece of its argument, and everything
    outside that piece is white space. *)
Lemma trim_spec (s : jsstring) :
  exists j k : nat,
    trim s = firstn k (skipn j s) /\ (j + k <= List.length s)%nat /\
    forall p c, nth_error s p = Some c -> is_space c = false ->
                (j <= p < j + k)%nat.
Proof.
  unfold trim.
  destruct (trimStart_spec s) as (j & Hj & Hjlen & Hjsp).
  destruct (trimEnd_spec (trimStart s)) as (k & Hk & Hklen & Hksp).
  exists j, k. rewrite Hk, Hj. split; [reflexivity|].
  rewrite Hj, length_skipn in Hklen. split; [lia|].
  intros p c Hn Hc.
  assert (Hjp : (j <= p)%nat).
  { destruct (Nat.le_gt_cases j p) as [H | H]; [exact H|].
    rewrite (Hjsp p c H Hn) in Hc. discriminate. }
  split; [exact Hjp|].
  destruct (Nat.le_gt_cases (j + k) p) as [H | H]; [|exact H].
  rewrite (Hksp (p - j)%nat c) in Hc; [discriminate | lia |].
  rewrite Hj, nth_error_skipn. replace (j + (p - j))%nat with p by lia.
  exact Hn.
Qed.

Lemma trim_length_le (s : jsstring) : jslength (trim s) <= jslength s.
Proof.
  destruct (trim_spec s) as (j & k & Heq & Hlen & _).
  unfold jslength. rewrite Heq, length_firstn, length_skipn. lia.
Qed.

End JsStringFacts.

(* ================================================================== *)
(** * Facts about the chunking loop *)
(* ================================================================== *)

Module ChunkerFacts.
Import JsString JsStringFacts Chunker.

Section Loop.
Variable clean : jsstring.
Variables chunkSize overlap : Z.
Hypothesis Hpre : 0 <= overlap < chunkSize.

(** What one iteration does to a start index inside the text. *)
Lemma chunk_step_spec (startIndex : Z) :
  0 <= startIndex < jslength clean ->
  forall chunk next,
    chunk_step clean chunkSize overlap startIndex = (chunk, next) ->
    occurs_at chunk clean (Z.to_nat startIndex) /\
    jslength chunk <= chunkSize /\
    startIndex < next <= startIndex + jslength chunk /\
    startIndex + jslength chunk <= jslength clean /\
    next <= jslength clean /\
    (next = jslength clean \/
     startIndex + min_advance chunkSize overlap <= next).
Proof.
  intros Hs chunk next. unfold chunk_step, occurs_at, min_advance.
  set (e := Z.min (startIndex + chunkSize) (jslength clean)).
  assert (He : startIndex < e <= jslength clean) by (unfold e; lia).
  pose proof (slice_inside clean startIndex e) as Hsl.
  pose proof (slice_inside_length clean startIndex e) as Hsll.
  destruct (e <? jslength clean) eqn:Elt.
  - apply Z.ltb_lt in Elt.
    assert (Ee : e = startIndex + chunkSize) by (unfold e in *; lia).
    set (w := slice clean startIndex e) in *.
    pose proof (lastIndexOf_range period w) as Hp.
    pose proof (lastIndexOf_range newline w) as Hn.
    set (bp := Z.max (lastIndexOf period w) (lastIndexOf newline w)).
    assert (Hbp : -1 <= bp < jslength w) by (unfold bp; lia).
    rewrite Hsll in Hbp by lia.
    destruct (chunkSize <? 2 * bp) eqn:Ebp; intros [= <- <-].
    + apply Z.ltb_lt in Ebp.
      assert (Hcut : slice w 0 (bp + 1)
                     = firstn (Z.to_nat (bp + 1))
                              (skipn (Z.to_nat startIndex) clean)).
      { rewrite slice_inside by (rewrite ?Hsll; lia).
        rewrite Z.sub_0_r. change (Z.to_nat 0) with 0%nat.
        cbn [skipn]. rewrite Hsl by lia. rewrite firstn_firstn.
        f_equal. lia. }
      assert (Hlen : jslength (slice w 0 (bp + 1)) = bp + 1).
      { rewrite slice_inside_length by (rewrite ?Hsll; lia). lia. }
      unfold jslength in *.
      repeat split; try lia.
      * rewrite Hcut at 2. f_equal. lia.
      * right. assert (chunkSize / 2 + 1 <= bp)
          by (pose proof (Z.mul_div_le chunkSize 2); lia).
        lia.
    + apply Z.ltb_ge in Ebp.
      assert (Hlen : jslength w = chunkSize) by (rewrite Hsll; lia).
      unfold jslength in *.
      repeat split; try lia.
      * rewrite Hsl at 2 by lia. f_equal. lia.
  - apply Z.ltb_ge in Elt. intros [= <- <-].
    assert (Hlen : jslength (slice clean startIndex e) = e - startIndex)
      by (apply Hsll; lia).
    unfold jslength in *.
    repeat split; try lia.
    rewrite Hsl at 2 by lia. f_equal. lia.
Qed.

(** Fuel beyond what the loop uses does not change its result. *)
Lemma chunk_windows_more_fuel (fuel fuel' : nat) (startIndex : Z)
      (ws : list jsstring) :
  chunk_windows fuel clean chunkSize overlap startIndex = Some ws ->
  (fuel <= fuel')%nat ->
  chunk_windows fuel' clean chunkSize overlap startIndex = Some ws.
Proof.
  revert fuel' startIndex ws.
  induction fuel as [|fuel IH]; intros fuel' startIndex ws H Hle;
    destruct fuel' as [|fuel']; cbn [chunk_windows] in *;
    destruct (startIndex <? jslength clean); try congruence; try lia.
  destruct (chunk_step clean chunkSize overlap startIndex) as [chunk next].
  destruct (chunk_windows fuel clean chunkSize overlap next) as [rest|] eqn:E;
    [|discriminate].
  rewrite (IH fuel' next rest E) by lia. exact H.
Qed.

(** The loop ends: one unit of fuel per remaining character is enough. *)
Lemma chunk_windows_enough_fuel (fuel : nat) (startIndex : Z) :
  0 <= startIndex <= jslength clean ->
  jslength clean - startIndex <= Z.of_nat fuel ->
  exists ws, chunk_windows fuel clean chunkSize overlap startIndex = Some ws.
Proof.
  revert startIndex.
  induction fuel as [|fuel IH]; intros startIndex Hs Hfuel;
    cbn [chunk_windows];
    destruct (startIndex <? jslength clean) eqn:Elt;
    try (now exists []); apply Z.ltb_lt in Elt; [lia|].
  destruct (chunk_step clean chunkSize overlap startIndex)
    as [chunk next] eqn:Estep.
  destruct (chunk_step_spec startIndex (conj (proj1 Hs) Elt) _ _ Estep)
    as (_ & _ & Hnext & _ & Hle & _).
  destruct (IH next) as [rest Hrest]; [lia | lia |].
  exists (chunk :: rest). now rewrite Hrest.
Qed.

Lemma min_advance_pos : 0 < min_advance chunkSize overlap.
Proof.
  unfold min_advance. pose proof (Z.div_pos chunkSize 2). lia.
Qed.

Lemma ceil_div_zero (m : Z) : 0 < m -> ceil_div 0 m = 0.
Proof. intros Hm. unfold ceil_div. apply Z.div_small. lia. Qed.

Lemma ceil_div_positive (a m : Z) : 0 < m -> 0 < a -> 1 <= ceil_div a m.
Proof.
  intros Hm Ha. unfold ceil_div. apply Z.div_le_lower_bound; lia.
Qed.

Lemma ceil_div_step (a b m : Z) :
  0 < m -> a + m <= b -> ceil_div a m + 1 <= ceil_div b m.
Proof.
  intros Hm Hab. unfold ceil_div.
  replace (b + m - 1) with (b - 1 + 1 * m) by lia.
  rewrite Z.div_add by lia.
  apply Z.add_le_mono_r, Z.div_le_mono; lia.
Qed.

(** The number of windows. *)
Lemma chunk_windows_count (fuel : nat) (startIndex : Z)
      (ws : list jsstring) :
  0 <= startIndex <= jslength clean ->
  chunk_windows fuel clean chunkSize overlap startIndex = Some ws ->
  Z.of_nat (List.length ws)
  <= ceil_div (jslength clean - startIndex) (min_advance chunkSize overlap).
Proof.
  pose proof min_advance_pos as Hm.
  revert startIndex ws.
  induction fuel as [|fuel IH]; intros startIndex ws Hs;
    cbn [chunk_windows];
    destruct (startIndex <? jslength clean) eqn:Elt;
    try discriminate;
    try (intros [= <-]; apply Z.ltb_ge in Elt;
         replace (jslength clean - startIndex) with 0 by lia;
         rewrite ceil_div_zero by exact Hm; cbn; lia).
  apply Z.ltb_lt in Elt.
  destruct (chunk_step clean chunkSize overlap startIndex)
    as [chunk next] eqn:Estep.
  destruct (chunk_step_spec startIndex (conj (proj1 Hs) Elt) _ _ Estep)
    as (_ & _ & Hnext & _ & Hle & Hadv).
  destruct (chunk_windows fuel clean chunkSize overlap next)
    as [rest|] eqn:E; [|discriminate].
  intros [= <-]. cbn [List.length]. rewrite Nat2Z.inj_succ.
  specialize (IH next rest ltac:(lia) E).
  destruct Hadv as [-> | Hadv].
  - rewrite Z.sub_diag, ceil_div_zero in IH by exact Hm.
    pose proof (ceil_div_positive (jslength clean - startIndex) _ Hm).
    lia.
  - pose proof (ceil_div_step (jslength clean - next)
                              (jslength clean - startIndex) _ Hm).
    lia.
Qed.

(** No window is longer than [chunkSize]. *)
Lemma chunk_windows_length (fuel : nat) (startIndex : Z)
      (ws : list jsstring) :
  0 <= startIndex <= jslength clean ->
  chunk_windows fuel clean chunkSize overlap startIndex = Some ws ->
  Forall (fun w => jslength w <= chunkSize) ws.
Proof.
  revert startIndex ws.
  induction fuel as [|fuel IH]; intros startIndex ws Hs;
    cbn [chunk_windows];
    destruct (startIndex <? jslength clean) eqn:Elt;
    try discriminate; try (intros [= <-]; constructor).
  apply Z.ltb_lt in Elt.
  destruct (chunk_step clean chunkSize overlap startIndex)
    as [chunk next] eqn:Estep.
  destruct (chunk_step_spec startIndex (conj (proj1 Hs) Elt) _ _ Estep)
    as (_ & Hlen & Hnext & _ & Hle & _).
  destruct (chunk_windows fuel clean chunkSize overlap next)
    as [rest|] eqn:E; [|discriminate].
  intros [= <-]. constructor; [exact Hlen|].
  apply (IH next); [lia | exact E].
Qed.

(** The windows leave no gap: every index from [startIndex] on lies in
    one of them. *)
Lemma chunk_windows_cover (fuel : nat) (startIndex : Z)
      (ws : list jsstring) :
  0 <= startIndex <= jslength clean ->
  chunk_windows fuel clean chunkSize overlap startIndex = Some ws ->
  forall i : nat,
    startIndex <= Z.of_nat i < jslength clean -> covered clean ws i.
Proof.
  revert startIndex ws.
  induction fuel as [|fuel IH]; intros startIndex ws Hs;
    cbn [chunk_windows];
    destruct (startIndex <? jslength clean) eqn:Elt;
    try discriminate;
    try (intros _ i Hi; apply Z.ltb_ge in Elt; lia).
  apply Z.ltb_lt in Elt.
  destruct (chunk_step clean chunkSize overlap startIndex)
    as [chunk next] eqn:Estep.
  destruct (chunk_step_spec startIndex (conj (proj1 Hs) Elt) _ _ Estep)
    as (Hocc & _ & Hnext & _ & Hle & _).
  destruct (chunk_windows fuel clean chunkSize overlap next)
    as [rest|] eqn:E; [|discriminate].
  intros [= <-] i Hi. unfold jslength in *.
  destruct (Z.lt_ge_cases (Z.of_nat i) next) as [Hlt | Hge].
  - exists chunk, (Z.to_nat startIndex).
    repeat split; [now left | exact Hocc | lia | lia].
  - destruct (IH next rest ltac:(lia) E i ltac:(lia))
      as (w & off & Hin & Hw & Hoff).
    exists w, off. repeat split; [now right | exact Hw | lia | lia].
Qed.

End Loop.

(** ** From windows to the chunks pushed *)

Lemma pushed_length (chunkSize : Z) (ws : list jsstring) :
  Forall (fun w => jslength w <= chunkSize) ws ->
  Forall (fun c => jslength c <= chunkSize) (pushed ws).
Proof.
  unfold pushed. induction 1 as [|w ws Hw _ IH]; cbn [flat_map].
  - constructor.
  - apply Forall_app. split; [|exact IH].
    unfold push_chunk. destruct (0 <? jslength (trim w)); constructor;
      [|constructor].
    pose proof (trim_length_le w). lia.
Qed.

Lemma occurs_at_nth (chunk clean : jsstring) (off i : nat) :
  occurs_at chunk clean off ->
  (off <= i < off + List.length chunk)%nat ->
  nth_error chunk (i - off) = nth_error clean i.
Proof.
  unfold occurs_at. intros Hocc Hi.
  rewrite <- Hocc at 1.
  rewrite nth_error_firstn.
  destruct (Nat.ltb_spec (i - off) (List.length chunk)); [|lia].
  rewrite nth_error_skipn. f_equal. lia.
Qed.

(** Trimming a window only loses white space, so an index holding
    anything else stays covered. *)
Lemma pushed_cover (clean : jsstring) (ws : list jsstring) (i : nat)
      (c : ascii) :
  covered clean ws i ->
  nth_error clean i = Some c -> is_space c = false ->
  covered clean (pushed ws) i.
Proof.
  intros (w & off & Hin & Hocc & Hi) Hn Hc.
  destruct (trim_spec w) as (j & k & Htrim & Hjk & Hkeep).
  assert (Hw : nth_error w (i - off) = Some c)
    by (rewrite (occurs_at_nth w clean off i Hocc Hi); exact Hn).
  specialize (Hkeep _ _ Hw Hc).
  assert (Hlen : List.length (trim w) = k)
    by (rewrite Htrim, length_firstn, length_skipn; lia).
  exists (trim w), (off + j)%nat. repeat split.
  - unfold pushed. apply in_flat_map. exists w. split; [exact Hin|].
    unfold push_chunk, jslength. rewrite Hlen.
    destruct (Z.ltb_spec 0 (Z.of_nat k)); [now left | lia].
  - unfold occurs_at in *. rewrite Hlen, Htrim. rewrite <- Hocc at 1.
    rewrite skipn_firstn_comm, skipn_skipn, firstn_firstn.
    rewrite (Nat.add_comm off j). f_equal. lia.
  - lia.
  - lia.
Qed.

End ChunkerFacts.


(* ================================================================== *)
(** * Facts about the embedder *)
(* ================================================================== *)

Module EmbedderFacts.
Import JsString Js Collaborators Embedder.

Lemma array_slice_batch {A : Type} (l : list A) (i : nat) :
  array_slice l i (i + batchSize) = firstn batchSize (skipn i l).
Proof. unfold array_slice. f_equal. lia. Qed.

Lemma skipn_batch {A : Type} (l : list A) (i : nat) :
  skipn i l = firstn batchSize (skipn i l) ++ skipn (i + batchSize) l.
Proof.
  rewrite (Nat.add_comm i), <- skipn_skipn. symmetry. apply firstn_skipn.
Qed.

Section WithApi.
Context {api : EmbeddingApi}.

(** [corresponds text v]: [v] is an embedding of [text]. *)
Variable corresponds : jsstring -> Embedding -> Prop.
Variable key : jsstring.

(** The collaborator answers every batch the loop can send with one
    vector per text, in the order of the request. *)
Hypothesis answers_in_order :
  forall batch : list jsstring,
    batch <> [] -> (List.length batch <= batchSize)%nat ->
    exists data,
      embeddings_create key embedding_model (InputBatch batch) = Ok data /\
      Forall2 corresponds batch (map embedding data).

(** From index [i] on the loop appends one vector for each remaining
    text, in order. *)
Lemma embed_batches_in_order (chunks : list jsstring) (i : nat)
      (embeddings : list Embedding) (w : World) :
  exists rest w',
    embed_batches key chunks i embeddings w = (Ok (embeddings ++ rest), w') /\
    Forall2 corresponds (skipn i chunks) rest.
Proof.
  funelim (embed_batches key chunks i embeddings w).
  - (* i >= chunks.length *)
    exists [], w. rewrite app_nil_r. split; [reflexivity|].
    rewrite skipn_all2 by lia. constructor.
  - (* the batch is answered *)
    destruct H as (rest & w' & Hrun & Hrest).
    rewrite array_slice_batch in Heq.
    destruct (answers_in_order (firstn batchSize (skipn i chunks)))
      as (data' & Hdata & Hbatch).
    + intros Hnil. apply (f_equal (@List.length _)) in Hnil.
      rewrite length_firstn, length_skipn in Hnil.
      unfold batchSize in Hnil. cbn [List.length] in Hnil. lia.
    + rewrite length_firstn. lia.
    + rewrite Hdata in Heq. injection Heq as <-.
      exists (map embedding data' ++ rest), w'. split.
      * rewrite Hrun. now rewrite <- app_assoc.
      * rewrite (skipn_batch chunks i). now apply Forall2_app.
  - (* the batch is refused: excluded by [answers_in_order] *)
    rewrite array_slice_batch in Heq.
    destruct (answers_in_order (firstn batchSize (skipn i chunks)))
      as (data' & Hdata & _).
    + intros Hnil. apply (f_equal (@List.length _)) in Hnil.
      rewrite length_firstn, length_skipn in Hnil.
      unfold batchSize in Hnil. cbn [List.length] in Hnil. lia.
    + rewrite length_firstn. lia.
    + rewrite Hdata in Heq. discriminate.
Qed.

End WithApi.

Lemma Forall2_nth_error {A B : Type} (R : A -> B -> Prop)
      (l : list A) (l' : list B) :
  Forall2 R l l' ->
  List.length l' = List.length l /\
  forall i a, nth_error l i = Some a ->
              exists b, nth_error l' i = Some b /\ R a b.
Proof.
  induction 1 as [|a b l l' Hab _ [IHlen IH]].
  - split; [reflexivity|]. intros [|i] a H; discriminate.
  - split; [cbn; now rewrite IHlen|].
    intros [|i] a0 H; cbn in *.
    + injection H as <-. now exists b.
    + now apply IH.
Qed.

End EmbedderFacts.

(* ================================================================== *)
(** * Facts about the retriever *)
(* ================================================================== *)

Module RetrieverFacts.
Import JsString Js Collaborators VectorStore Retriever.
Local Open Scope js_scope.

Section WithApis.
Context {api : EmbeddingApi} {storage : StorageApi}.

Lemma retrieveContext_after_attempt (query : jsstring) (topK : option Z)
      (apiKey : option jsstring) (w : World) :
  retrieveContext query topK apiKey w
  = match retrieval_attempt query topK apiKey w with
    | (Ok [], w') => (Ok (no_context None), w')
    | (Ok found, w') =>
        (Ok {| hasContext := true;
               context := join separator (context_parts_from 0 found);
               sources :=
                 unique (map (fun r => fileName (sr_metadata r)) found);
               results := Some (map to_result found);
               error := None |}, w')
    | (Throw e, w') =>
        (Ok (no_context (Some (message e))),
         with_console
           (console w'
            ++ [{| level := ErrorLevel;
                   args := [LStr (js "Error retrieving context:");
                            LExn e] |}]) w')
    end.
Proof.
  unfold retrieveContext, retrieval_attempt, try_catch, bind.
  destruct (generateQueryEmbedding query apiKey w) as [[v | e] w1];
    [|reflexivity].
  destruct (searchSimilar v _ w1) as [[[|r found] | e] w2]; reflexivity.
Qed.

Lemma generateQueryEmbedding_without_key (query : jsstring)
      (apiKey : option jsstring) (w : World) :
  truthy apiKey = false ->
  generateQueryEmbedding query apiKey w
  = (Throw (Error (js "API Key required for generating embeddings")), w).
Proof.
  destruct apiKey as [[|c key]|]; cbn; intros H;
    [reflexivity | discriminate | reflexivity].
Qed.

End WithApis.
End RetrieverFacts.

(* ================================================================== *)
(** * Facts about the vector index *)
(* ================================================================== *)

Module VectorStoreFacts.
Import JsString Js Collaborators VectorStore.
Local Open Scope js_scope.

Lemma jsstring_eqb_true (a b : jsstring) : jsstring_eqb a b = true <-> a = b.
Proof.
  unfold jsstring_eqb. destruct (list_eq_dec ascii_dec a b); split;
    congruence.
Qed.

Lemma matches_true (d : jsstring) (r : ChunkRecord) :
  matches (Some d) r = true <-> documentId (rec_metadata r) = d.
Proof. apply jsstring_eqb_true. Qed.

Lemma filter_none_left {A : Type} (f : A -> bool) (l : list A) :
  filter f l = [] -> filter (fun x => negb (f x)) l = l.
Proof.
  induction l as [|x l IH]; cbn [filter]; [reflexivity|].
  destruct (f x); cbn [negb]; [discriminate|].
  intros H. now rewrite IH.
Qed.

(** Removing records keeps the remaining ids distinct. *)
Lemma kept_ids_distinct (keep : ChunkRecord -> bool)
      (records : list ChunkRecord) :
  NoDup (map rec_id records) -> NoDup (map rec_id (filter keep records)).
Proof.
  induction records as [|r records IH]; cbn [map filter];
    rewrite ?NoDup_cons_iff; [trivial|].
  intros [Hfresh Hrest]. specialize (IH Hrest).
  destruct (keep r); [|exact IH].
  cbn [map]. apply NoDup_cons_iff. split; [|exact IH].
  contradict Hfresh.
  apply in_map_iff in Hfresh as (r' & <- & Hr').
  apply in_map, (proj1 (filter_In keep r' records) Hr').
Qed.

(** Records with distinct ids are told apart by their ids. *)
Lemma NoDup_ids_inj (records : list ChunkRecord) (a b : ChunkRecord) :
  NoDup (map rec_id records) -> In a records -> In b records ->
  rec_id a = rec_id b -> a = b.
Proof.
  induction records as [|r records IH]; cbn [map]; intros Hnd Ha Hb Hid;
    [contradiction|].
  inversion Hnd as [|? ? Hnotin Hnd']; subst.
  destruct Ha as [<- | Ha]; destruct Hb as [<- | Hb]; try reflexivity.
  - exfalso. apply Hnotin. rewrite Hid. now apply in_map.
  - exfalso. apply Hnotin. rewrite <- Hid. now apply in_map.
  - now apply IH.
Qed.

(** Deleting the ids that [get] reports for a document removes the
    records of that document and no other. *)
Lemma reference_delete_document (records : list ChunkRecord) (d : jsstring) :
  NoDup (map rec_id records) ->
  reference_delete records
    (map rec_id (filter (matches (Some d)) records))
  = filter (fun r => negb (matches (Some d) r)) records.
Proof.
  intros Hnd. unfold reference_delete. apply filter_ext_in.
  intros r Hr. f_equal.
  destruct (matches (Some d) r) eqn:Hm.
  - apply existsb_exists. exists (rec_id r). split.
    + apply in_map, filter_In. now split.
    + now apply jsstring_eqb_true.
  - destruct (existsb _ _) eqn:He; [|reflexivity].
    apply existsb_exists in He as (i & Hi & Heq).
    apply jsstring_eqb_true in Heq.
    apply in_map_iff in Hi as (r' & Hid & Hr').
    apply filter_In in Hr' as [Hr' Hm'].
    assert (r = r') by (apply (NoDup_ids_inj records); congruence).
    congruence.
Qed.

(** Every row of [listDocuments] comes from the metadata of a record. *)
Lemma group_documents_from (metadatas : list Metadata)
      (documentsMap : list (jsstring * DocumentSummary))
      (entry : jsstring * DocumentSummary) :
  In entry (group_documents documentsMap metadatas) ->
  In entry documentsMap \/
  exists m, In m metadatas /\ entry = (documentId m, summary m).
Proof.
  revert documentsMap.
  induction metadatas as [|m rest IH]; intros documentsMap H;
    cbn [group_documents] in H; [now left|].
  destruct (existsb _ documentsMap).
  - destruct (IH _ H) as [Hin | (m' & Hm' & ->)]; [now left|].
    right. exists m'. split; [now right | reflexivity].
  - destruct (IH _ H) as [Hin | (m' & Hm' & ->)].
    + apply in_app_or in Hin as [Hin | [<- | []]]; [now left|].
      right. exists m. split; [now left | reflexivity].
    + right. exists m'. split; [now right | reflexivity].
Qed.

Section WithReference.
Variable nearest : list ChunkRecord -> Embedding -> Z -> list QueryHit.

(** The world once the collection handle is set. *)
Lemma getCollection_reference (w : World) :
  exists w',
    @getCollection (reference_storage nearest) w = (Ok tt, w') /\
    chroma w' = chroma w.
Proof.
  unfold getCollection. destruct (collection w); [now exists w|].
  cbn. eexists. split; reflexivity.
Qed.

Lemma deleteDocument_reference (d : jsstring) (w : World) :
  NoDup (map rec_id (chroma w)) ->
  exists w',
    @deleteDocument (reference_storage nearest) d w = (Ok tt, w') /\
    chroma w'
    = filter (fun r => negb (matches (Some d) r)) (chroma w).
Proof.
  intros Hnd. unfold deleteDocument, try_catch, bind.
  destruct (getCollection_reference w) as (w1 & -> & Hw1).
  cbn [coll_get reference_storage get_ids reference_get].
  rewrite Hw1.
  destruct (map rec_id (filter (matches (Some d)) (chroma w)))
    as [|i ids] eqn:Hids.
  - exists w1. split; [reflexivity|]. rewrite Hw1.
    rewrite <- (reference_delete_document _ d Hnd), Hids.
    unfold reference_delete. cbn [existsb negb].
    clear. induction (chroma w) as [|r rs IH]; cbn; [|rewrite <- IH];
      reflexivity.
  - cbn [coll_delete reference_storage]. rewrite Hw1.
    eexists. split; [reflexivity|]. cbn [chroma with_chroma with_console].
    rewrite <- Hids. now apply reference_delete_document.
Qed.

(** Deleting a document keeps the ids of the collection distinct. *)
Lemma deleteDocument_keeps_ids_distinct (d : jsstring) (w : World) :
  NoDup (map rec_id (chroma w)) ->
  NoDup (map rec_id
             (chroma (snd (@deleteDocument (reference_storage nearest)
                                           d w)))).
Proof.
  intros Hnd.
  destruct (deleteDocument_reference d w Hnd) as (w' & Hrun & Hleft).
  rewrite Hrun. cbn [snd]. rewrite Hleft. now apply kept_ids_distinct.
Qed.

Lemma listDocuments_reference (w : World) :
  exists docs w',
    @listDocuments (reference_storage nearest) w = (Ok docs, w') /\
    forall doc, In doc docs ->
                exists r, In r (chroma w) /\
                          doc_documentId doc = documentId (rec_metadata r).
Proof.
  unfold listDocuments, try_catch, bind.
  destruct (getCollection_reference w) as (w1 & -> & Hw1).
  cbn [coll_get reference_storage get_metadatas reference_get ret].
  eexists. eexists. split; [reflexivity|].
  intros doc Hdoc. apply in_map_iff in Hdoc as ([k s] & <- & Hin).
  apply group_documents_from in Hin as [[] | (m & Hm & Heq)].
  injection Heq as -> ->.
  apply in_map_iff in Hm as (r & <- & Hr).
  apply filter_In in Hr as [Hr _]. rewrite Hw1 in Hr.
  exists r. split; [exact Hr | reflexivity].
Qed.

Lemma getStats_reference (w : World) :
  exists stats w',
    @getStats (reference_storage nearest) w = (Ok stats, w') /\
    stats_totalChunks stats = Z.of_nat (List.length (chroma w)).
Proof.
  unfold getStats, try_catch, bind.
  destruct (getCollection_reference w) as (w1 & -> & Hw1).
  cbn [coll_count reference_storage].
  destruct (listDocuments_reference w1) as (docs & w2 & -> & _).
  eexists. eexists. split; [reflexivity|]. cbn. now rewrite Hw1.
Qed.

End WithReference.
End VectorStoreFacts.

(* ================================================================== *)
(** * Facts about the session handlers *)
(* ================================================================== *)

Module ServerFacts.
Import JsString Js Collaborators VectorStore Retriever Server.
Local Open Scope js_scope.

Lemma quiet_ret {A} (a : A) : quiet (ret a).
Proof. now intros w H. Qed.

Lemma quiet_throw {A} (e : Exn) : quiet (@throw A e).
Proof. now intros w H. Qed.

Lemma quiet_call {A} (r : result A) : quiet (call r).
Proof. now intros w H. Qed.

Lemma quiet_read {A} (f : World -> result A) : quiet (fun w => (f w, w)).
Proof. now intros w H. Qed.

Lemma quiet_bind {A B} (m : M A) (k : A -> M B) :
  quiet m -> (forall a, quiet (k a)) -> quiet (bind m k).
Proof.
  intros Hm Hk w H. unfold bind. specialize (Hm w H).
  destruct (m w) as [[a | e] w']; cbn [snd] in *; [now apply Hk | exact Hm].
Qed.

Lemma quiet_try_catch {A} (m : M A) (h : Exn -> M A) :
  quiet m -> (forall e, quiet (h e)) -> quiet (try_catch m h).
Proof.
  intros Hm Hh w H. unfold try_catch. specialize (Hm w H).
  destruct (m w) as [[a | e] w']; cbn [snd] in *; [exact Hm | now apply Hh].
Qed.

Lemma quiet_log (l : LogLevel) (a : list LogArg) :
  existsb is_secret a = false -> quiet (log_line l a).
Proof.
  intros Ha w H. unfold log_line, credential_logged in *. cbn.
  rewrite existsb_app, H. cbn. unfold logs_secret. cbn. now rewrite Ha.
Qed.

Ltac quiet_step :=
  lazymatch goal with
  | |- quiet (ret _) => apply quiet_ret
  | |- quiet (throw _) => apply quiet_throw
  | |- quiet (call _) => apply quiet_call
  | |- quiet (console_log _) => apply quiet_log; reflexivity
  | |- quiet (console_warn _) => apply quiet_log; reflexivity
  | |- quiet (console_error _) => apply quiet_log; reflexivity
  | |- quiet (bind _ _) => apply quiet_bind; [|intros ?]
  | |- quiet (try_catch _ _) => apply quiet_try_catch; [|intros ?]
  | |- quiet (fun w => (_, w)) => apply quiet_read
  end.

Ltac quiet := repeat quiet_step.

Section WithApis.
Context {api : EmbeddingApi} {storage : StorageApi}
        {realtime : RealtimeApi}.

Lemma quiet_getCollection : quiet getCollection.
Proof.
  intros w H. unfold getCollection. destruct (collection w); [exact H|].
  revert w H. change (quiet
    (try_catch
       (call getOrCreateCollection ;;;
        (fun w' => (Ok tt, with_collection true w')) ;;;
        console_log [LStr (js "✓ ChromaDB collection initialized")])
       (fun error =>
          console_error
            [LStr (js "Error initializing ChromaDB collection:");
             LExn error] ;;;
          throw error))).
  quiet. now intros w H.
Qed.

Lemma quiet_searchSimilar (v : Embedding) (n : option Z) :
  quiet (searchSimilar v n).
Proof. unfold searchSimilar. quiet. apply quiet_getCollection. Qed.

Lemma quiet_generateQueryEmbedding (query : jsstring)
      (apiKey : option jsstring) :
  quiet (generateQueryEmbedding query apiKey).
Proof.
  unfold generateQueryEmbedding. destruct apiKey as [[|c key]|]; quiet.
  destruct a; quiet.
Qed.

Lemma quiet_retrieveContext (query : jsstring) (topK : option Z)
      (apiKey : option jsstring) :
  quiet (retrieveContext query topK apiKey).
Proof.
  unfold retrieveContext. quiet.
  - apply quiet_generateQueryEmbedding.
  - apply quiet_searchSimilar.
  - destruct a0; quiet.
Qed.

Lemma quiet_failed_session (response : FetchResponse) :
  quiet (failed_session response).
Proof. unfold failed_session. quiet. Qed.

Lemma quiet_internal_error (error : Exn) : quiet (internal_error error).
Proof. unfold internal_error. quiet. Qed.

(** The handler of server.js hands no credential to the console. *)
Lemma quiet_post_realtime_call (OPENAI_API_KEY : option jsstring)
      (IELTS_INSTRUCTIONS : jsstring) (req : Request) :
  quiet (post_realtime_call OPENAI_API_KEY IELTS_INSTRUCTIONS req).
Proof.
  unfold post_realtime_call.
  destruct (getApiKey OPENAI_API_KEY req) as [[|c key]|]; quiet.
  - apply quiet_retrieveContext.
  - destruct (hasContext a); quiet.
  - destruct (negb (resp_ok a3)); [apply quiet_failed_session|]. quiet.
  - apply quiet_internal_error.
Qed.

End WithApis.
End ServerFacts.

(* ================================================================== *)
(** * Facts about the turn controller *)
(* ================================================================== *)

Module ClientFacts.
Import JsString Js Client.

(** [sendEvent] writes nothing but [sent]. *)
Lemma sendEvent_frame (e : ClientEvent) (p : Page) :
  state (sendEvent e p) = state p /\
  elements (sendEvent e p) = elements p /\
  currentAssistantTranscript (sendEvent e p) = currentAssistantTranscript p.
Proof.
  unfold sendEvent. destruct (dataChannel (state p)) as [[]|]; now cbn.
Qed.

Lemma sendEvent_sent (e : ClientEvent) (p : Page) :
  sent (sendEvent e p)
  = sent p ++ match dataChannel (state p) with
              | Some Open => [e]
              | _ => []
              end.
Proof.
  unfold sendEvent.
  destruct (dataChannel (state p)) as [[]|]; cbn;
    now rewrite ?app_nil_r.
Qed.

Lemma startTalking_accepted (p : Page) :
  isConnected (state p) = true -> isTalking (state p) = false ->
  startTalking p = started p.
Proof.
  intros Hc Ht. unfold startTalking, started. rewrite Hc, Ht. cbn [negb orb].
  destruct p as [s e t out].
  destruct s as [pc dc ls sid part turns conn talk hist].
  unfold sendEvent, with_state, with_elements, set_sent. cbn.
  destruct dc as [[]|]; destruct ls as [tracks|]; cbn;
    rewrite <- ?app_assoc, ?app_nil_r; reflexivity.
Qed.

Lemma startTalking_rejected (p : Page) :
  isConnected (state p) = false \/ isTalking (state p) = true ->
  startTalking p = p.
Proof.
  intros [H | H]; unfold startTalking; rewrite H; cbn [negb orb];
    [reflexivity | now rewrite orb_true_r].
Qed.

Lemma stopTalking_accepted (p : Page) :
  isConnected (state p) = true -> isTalking (state p) = true ->
  stopTalking p = stopped p.
Proof.
  intros Hc Ht. unfold stopTalking, stopped. rewrite Hc, Ht. cbn [negb orb].
  destruct p as [s e t out].
  destruct s as [pc dc ls sid part turns conn talk hist].
  unfold sendEvent, with_state, with_elements, set_sent. cbn.
  destruct dc as [[]|]; cbn; rewrite ?app_nil_r; reflexivity.
Qed.

Lemma stopTalking_rejected (p : Page) :
  isConnected (state p) = false \/ isTalking (state p) = false ->
  stopTalking p = p.
Proof.
  intros [H | H]; unfold stopTalking; rewrite H; cbn [negb orb];
    [reflexivity | now rewrite orb_true_r].
Qed.

(** [parseFeedback] writes the feedback panel, the part badge and
    [state.currentPart] only. *)
Lemma parseFeedback_frame (text : jsstring) (p : Page) :
  let q := parseFeedback text p in
  conversationHistory (state q) = conversationHistory (state p) /\
  isTalking (state q) = isTalking (state p) /\
  isConnected (state q) = isConnected (state p) /\
  dataChannel (state q) = dataChannel (state p) /\
  localStream (state q) = localStream (state p) /\
  currentQuestion (elements q) = currentQuestion (elements p) /\
  remoteAudio_muted (elements q) = remoteAudio_muted (elements p) /\
  currentAssistantTranscript q = currentAssistantTranscript p /\
  sent q = sent p.
Proof.
  unfold parseFeedback.
  destruct (includes (toLowerCase text) (js "band")
            || includes (toLowerCase text) (js "feedback"));
    destruct (includes (toLowerCase text) (js "part 2")
              || includes (toLowerCase text) (js "task card"));
    destruct (includes (toLowerCase text) (js "part 3"));
    cbn; repeat split; reflexivity.
Qed.

End ClientFacts.
(* ================================================================== *)
(** * Properties of the chunker *)
(* ================================================================== *)

Import JsString JsStringFacts Chunker ChunkerFacts Samples.

(** The loop of [chunkText] run from index 0 of the normalized text. *)
Lemma chunk_windows_from_zero (text : jsstring) (chunkSize overlap : Z) :
  0 <= overlap < chunkSize ->
  exists ws,
    (forall fuel, (List.length (cleanText text) <= fuel)%nat ->
       chunk_windows fuel (cleanText text) chunkSize overlap 0 = Some ws) /\
    Z.of_nat (List.length ws)
    <= ceil_div (jslength (cleanText text)) (min_advance chunkSize overlap) /\
    Forall (fun w => jslength w <= chunkSize) ws /\
    (forall i, (i < List.length (cleanText text))%nat ->
               covered (cleanText text) ws i).
Proof.
  intros Hpre. set (clean := cleanText text).
  assert (H0 : 0 <= 0 <= jslength clean) by (unfold jslength; lia).
  destruct (chunk_windows_enough_fuel clean chunkSize overlap Hpre
              (List.length clean) 0 H0) as [ws Hws];
    [unfold jslength; lia|].
  exists ws. repeat split.
  - intros fuel Hfuel.
    exact (chunk_windows_more_fuel clean chunkSize overlap _ fuel 0 ws Hws Hfuel).
  - pose proof (chunk_windows_count clean chunkSize overlap Hpre _ 0 ws H0 Hws)
      as Hc.
    now rewrite Z.sub_0_r in Hc.
  - exact (chunk_windows_length clean chunkSize overlap Hpre _ 0 ws H0 Hws).
  - intros i Hi.
    apply (chunk_windows_cover clean chunkSize overlap Hpre _ 0 ws H0 Hws).
    unfold jslength. lia.
Qed.

(** C4, as stated, fails: with [chunkSize = 10] and [overlap = 0] a window
    cut at a period in position 6 moves the start index by 7, less than
    [chunkSize - overlap = 10]; the 30 characters of [bound_text] take 4
    iterations, more than [ceil(30 / 10) = 3]. *)
Lemma chunkText_iterations_exceed_claimed_bound :
  bound_text <> [] /\ 0 <= 0 < 10 /\
  jslength (cleanText bound_text) = 30 /\
  snd (chunk_step (cleanText bound_text) 10 0 0) = 7 /\
  iterations bound_text 10 0 = Some 4%nat /\
  ceil_div (jslength (cleanText bound_text)) (10 - 0) = 3 /\
  ~ (exists n, iterations bound_text 10 0 = Some n /\
               Z.of_nat n <= ceil_div (jslength (cleanText bound_text)) (10 - 0)).
Proof.
  repeat split; try reflexivity; try lia; try discriminate.
  intros (n & Hn & Hle).
  assert (E : iterations bound_text 10 0 = Some 4%nat) by reflexivity.
  rewrite E in Hn. injection Hn as <-.
  assert (Hb : ceil_div (jslength (cleanText bound_text)) (10 - 0) = 3)
    by reflexivity.
  rewrite Hb in Hle. lia.
Qed.

(** C4 (amended): for every input text and every [chunkSize > overlap >= 0],
    [chunkText] terminates (any fuel of at least the length of the
    normalized text gives the same result), and the number of loop
    iterations is at most
    [ceil(len(normalizedText) / min(chunkSize - overlap, floor(chunkSize/2) + 2))]:
    an iteration that is not the last one moves the start index by
    [chunkSize - overlap], or by [breakPoint + 1 > chunkSize/2 + 1] when the
    window is cut at a sentence boundary. *)
Theorem chunkText_terminates_bounded (text : jsstring) (chunkSize overlap : Z) :
  0 <= overlap < chunkSize ->
  exists (chunks : list jsstring) (n : nat),
    (forall fuel, (List.length (cleanText text) <= fuel)%nat ->
       chunkText_fuel fuel text chunkSize overlap = Some chunks /\
       iterations_fuel fuel text chunkSize overlap = Some n) /\
    Z.of_nat n
    <= ceil_div (jslength (cleanText text)) (min_advance chunkSize overlap).
Proof.
  intros Hpre.
  destruct (chunk_windows_from_zero text chunkSize overlap Hpre)
    as (ws & Hrun & Hcount & _ & _).
  exists (pushed ws), (List.length ws). split; [|exact Hcount].
  intros fuel Hfuel. unfold chunkText_fuel, iterations_fuel.
  now rewrite (Hrun fuel Hfuel).
Qed.

Lemma chunkText_terminates_bounded_witness :
  0 <= 0 < 10 /\
  exists (chunks : list jsstring) (n : nat),
    (forall fuel, (List.length (cleanText bound_text) <= fuel)%nat ->
       chunkText_fuel fuel bound_text 10 0 = Some chunks /\
       iterations_fuel fuel bound_text 10 0 = Some n) /\
    Z.of_nat n <= ceil_div (jslength (cleanText bound_text)) (min_advance 10 0).
Proof.
  split; [lia | apply (chunkText_terminates_bounded bound_text 10 0); lia].
Defined.

(** C5, as stated, fails: [chunkText("ab cd", 3, 0)] is [["ab", "cd"]]; the
    space at index 2 of the normalized text is trimmed from the first
    window and occurs in no chunk. *)
Lemma chunkText_drops_boundary_space :
  0 <= 0 < 3 /\
  cleanText gap_text = of_string "ab cd" /\
  chunkText gap_text 3 0 = Some [of_string "ab"; of_string "cd"] /\
  nth_error (cleanText gap_text) 2 = Some space /\
  (forall chunk, In chunk [of_string "ab"; of_string "cd"] -> ~ In space chunk) /\
  ~ covered (cleanText gap_text) [of_string "ab"; of_string "cd"] 2.
Proof.
  assert (Hno : forall chunk, In chunk [of_string "ab"; of_string "cd"] ->
                              ~ In space chunk).
  { intros chunk [<- | [<- | []]] Hin; cbn in Hin;
      repeat (destruct Hin as [Hin | Hin]; [discriminate|]); exact Hin. }
  repeat split; try reflexivity; try lia; [exact Hno|].
  intros (chunk & off & Hin & Hocc & Hoff).
  apply (Hno chunk Hin).
  apply (nth_error_In chunk (2 - off)).
  rewrite (occurs_at_nth chunk _ off 2 Hocc Hoff). reflexivity.
Qed.

(** C5 (amended): for every input text and every [chunkSize > overlap >= 0],
    every chunk produced by [chunkText] has length at most [chunkSize], and
    every character of the normalized input that is not white space lies
    in at least one produced chunk, at its own position (each chunk is a
    trimmed window, so only white space at the edge of a window is lost). *)
Theorem chunkText_bounded_and_covering (text : jsstring)
        (chunkSize overlap : Z) :
  0 <= overlap < chunkSize ->
  exists chunks : list jsstring,
    chunkText text chunkSize overlap = Some chunks /\
    Forall (fun chunk => jslength chunk <= chunkSize) chunks /\
    forall (i : nat) (c : ascii),
      nth_error (cleanText text) i = Some c -> is_space c = false ->
      covered (cleanText text) chunks i.
Proof.
  intros Hpre.
  destruct (chunk_windows_from_zero text chunkSize overlap Hpre)
    as (ws & Hrun & _ & Hlen & Hcover).
  exists (pushed ws). repeat split.
  - unfold chunkText, chunkText_fuel. now rewrite (Hrun _ (Nat.le_refl _)).
  - exact (pushed_length chunkSize ws Hlen).
  - intros i c Hn Hc.
    apply (pushed_cover _ ws i c); [|exact Hn | exact Hc].
    apply Hcover, nth_error_Some. congruence.
Qed.

Lemma chunkText_bounded_and_covering_witness :
  0 <= 0 < 3 /\
  exists chunks : list jsstring,
    chunkText gap_text 3 0 = Some chunks /\
    Forall (fun chunk => jslength chunk <= 3) chunks /\
    forall (i : nat) (c : ascii),
      nth_error (cleanText gap_text) i = Some c -> is_space c = false ->
      covered (cleanText gap_text) chunks i.
Proof.
  split; [lia | apply (chunkText_bounded_and_covering gap_text 3 0); lia].
Defined.

(* ================================================================== *)
(** * Properties of the embedder *)
(* ================================================================== *)

Import Js Collaborators Embedder EmbedderFacts.

(** C6: with an API key present and an embedding collaborator that answers
    each batch with one vector per text in the order of the request,
    [generateEmbeddings] returns exactly one vector per input text, and the
    vector at position [i] is the one that corresponds to the text at
    position [i], for every [i] and across the boundaries of the batches
    of 20. *)
Theorem generateEmbeddings_preserves_order
        {api : EmbeddingApi} (corresponds : jsstring -> Embedding -> Prop)
        (key : jsstring) (chunks : list jsstring) (w : World) :
  key <> [] ->
  (forall batch : list jsstring,
      batch <> [] -> (List.length batch <= batchSize)%nat ->
      exists data,
        embeddings_create key embedding_model (InputBatch batch) = Ok data /\
        Forall2 corresponds batch (map embedding data)) ->
  exists embeddings w',
    generateEmbeddings chunks (Some key) w = (Ok embeddings, w') /\
    List.length embeddings = List.length chunks /\
    forall (i : nat) (text : jsstring),
      nth_error chunks i = Some text ->
      exists v, nth_error embeddings i = Some v /\ corresponds text v.
Proof.
  intros Hkey Hapi.
  destruct (embed_batches_in_order corresponds key Hapi chunks 0 [] w)
    as (embeddings & w' & Hrun & Hall).
  cbn [skipn app] in Hrun, Hall.
  destruct (Forall2_nth_error corresponds chunks embeddings Hall)
    as [Hlen Hnth].
  exists embeddings, w'. repeat split; [|exact Hlen | exact Hnth].
  destruct key as [|c key]; [congruence|].
  unfold generateEmbeddings, try_catch. now rewrite Hrun.
Qed.

Lemma generateEmbeddings_preserves_order_witness :
  exists embeddings w',
    @generateEmbeddings sample_embedding_api sample_chunks
                        (Some (js "sk-test")) fresh_world
    = (Ok embeddings, w') /\
    List.length embeddings = List.length sample_chunks /\
    forall (i : nat) (text : jsstring),
      nth_error sample_chunks i = Some text ->
      exists v, nth_error embeddings i = Some v /\ sample_corresponds text v.
Proof.
  apply (@generateEmbeddings_preserves_order sample_embedding_api
           sample_corresponds (js "sk-test") sample_chunks fresh_world).
  - discriminate.
  - intros batch _ _.
    exists (map (fun t => {| embedding := sample_embed t |}) batch).
    split; [reflexivity|].
    induction batch as [|t batch IH]; constructor; [reflexivity | exact IH].
Defined.

(** The sample run: 45 texts give 45 vectors, and the text at index 20, the
    first of the second batch, gets its own vector. *)
Example generateEmbeddings_sample_run :
  option_map (fun vs => (List.length vs, nth_error vs 20))
    (match fst (@generateEmbeddings sample_embedding_api sample_chunks
                  (Some (js "sk-test")) fresh_world) with
     | Ok vs => Some vs
     | Throw _ => None
     end)
  = Some (45%nat, Some (sample_embed (js "chunk 20"))).
Proof. vm_compute. reflexivity. Qed.

(* ================================================================== *)
(** * Properties of the retriever *)
(* ================================================================== *)

Import Js Collaborators VectorStore Retriever RetrieverFacts Server.

(** C3: for every query, [topK], API key and state of the world, and
    whatever the embedding and storage collaborators do,
    [retrieveContext] returns and does not throw; when embedding the query
    or querying the index throws, and in particular when the API key is
    absent, the object returned has [hasContext = false], an empty context,
    no sources, and the message of the failure as [error]. *)
Theorem retrieveContext_never_throws
        {api : EmbeddingApi} {storage : StorageApi}
        (query : jsstring) (topK : option Z) (apiKey : option jsstring)
        (w : World) :
  (exists ctx w', retrieveContext query topK apiKey w = (Ok ctx, w')) /\
  (forall e w',
      retrieval_attempt query topK apiKey w = (Throw e, w') ->
      fst (retrieveContext query topK apiKey w)
      = Ok (no_context (Some (message e)))) /\
  (truthy apiKey = false ->
   fst (retrieveContext query topK apiKey w)
   = Ok (no_context
           (Some (js "API Key required for generating embeddings")))).
Proof.
  rewrite retrieveContext_after_attempt.
  repeat split.
  - destruct (retrieval_attempt query topK apiKey w) as [[[|r found] | e] w'];
      eauto.
  - intros e w' H. now rewrite H.
  - intros Hkey. unfold retrieval_attempt, bind.
    now rewrite (generateQueryEmbedding_without_key query apiKey w Hkey).
Qed.

Lemma retrieveContext_never_throws_witness :
  fst (@retrieveContext failing_embedding_api empty_storage
         (js "describe your hometown") None (Some (js "sk-test")) fresh_world)
  = Ok (no_context (Some (js "401 Incorrect API key provided"))) /\
  fst (@retrieveContext sample_embedding_api empty_storage
         (js "describe your hometown") (Some 5) None fresh_world)
  = Ok (no_context (Some (js "API Key required for generating embeddings"))).
Proof.
  split.
  - apply (proj1 (proj2 (@retrieveContext_never_throws
                           failing_embedding_api empty_storage
                           (js "describe your hometown") None
                           (Some (js "sk-test")) fresh_world))
                 (Error (js "401 Incorrect API key provided"))
                 (with_console
                    [{| level := ErrorLevel;
                        args := [LStr (js "Error generating query embedding:");
                                 LExn (Error (js "401 Incorrect API key provided"))] |}]
                    fresh_world)).
    reflexivity.
  - apply (proj2 (proj2 (@retrieveContext_never_throws
                           sample_embedding_api empty_storage
                           (js "describe your hometown") (Some 5) None
                           fresh_world))).
    reflexivity.
Defined.

(** C9: when embedding the query succeeds and the index search returns no
    result, [retrieveContext] returns the object with [hasContext = false],
    an empty context and no sources, and neither a [results] nor an [error]
    property; the [/api/search] endpoint then answers 200 with a body that
    has the fields [success], [query], [hasContext] and [sources] and no
    [results] field. *)
Theorem empty_search_omits_results
        {api : EmbeddingApi} {storage : StorageApi}
        (OPENAI_API_KEY : option jsstring) (req : Request)
        (query : jsstring) (w w' : World) :
  body_query req = Some query -> query <> [] ->
  retrieval_attempt query
    (Some (match body_topK req with Some k => k | None => 3 end))
    (getApiKey OPENAI_API_KEY req) w = (Ok [], w') ->
  retrieveContext query
    (Some (match body_topK req with Some k => k | None => 3 end))
    (getApiKey OPENAI_API_KEY req) w
  = (Ok {| hasContext := false; context := []; sources := [];
           results := None; error := None |}, w') /\
  post_search OPENAI_API_KEY req w
  = (Ok {| status := 200;
           body := JObj [("success"%string, JBool true);
                         ("query"%string, JStr query);
                         ("hasContext"%string, JBool false);
                         ("sources"%string, JArr [])] |}, w') /\
  json_field "results"
             (match fst (post_search OPENAI_API_KEY req w) with
              | Ok resp => body resp
              | Throw _ => JNull
              end) = None.
Proof.
  intros Hq Hne Hrun.
  assert (Hctx : retrieveContext query
                   (Some (match body_topK req with Some k => k | None => 3 end))
                   (getApiKey OPENAI_API_KEY req) w
                 = (Ok (no_context None), w'))
    by (now rewrite retrieveContext_after_attempt, Hrun).
  assert (Hpost : post_search OPENAI_API_KEY req w
                  = (Ok {| status := 200;
                           body := JObj [("success"%string, JBool true);
                                         ("query"%string, JStr query);
                                         ("hasContext"%string, JBool false);
                                         ("sources"%string, JArr [])] |}, w')).
  { unfold post_search, try_catch. rewrite Hq.
    destruct query as [|c query]; [congruence|].
    unfold bind at 1. rewrite Hctx. reflexivity. }
  repeat split; [exact Hctx | exact Hpost |].
  now rewrite Hpost.
Qed.

Lemma empty_search_omits_results_witness :
  @post_search sample_embedding_api empty_storage None search_request
               fresh_world
  = (Ok {| status := 200;
           body := JObj [("success"%string, JBool true);
                         ("query"%string, JStr (js "describe your hometown"));
                         ("hasContext"%string, JBool false);
                         ("sources"%string, JArr [])] |},
     with_console
       [{| level := Log;
           args := [LStr (js "✓ ChromaDB collection initialized")] |}]
       (with_collection true fresh_world)).
Proof.
  apply (@empty_search_omits_results sample_embedding_api empty_storage
           None search_request (js "describe your hometown") fresh_world);
    [reflexivity | discriminate | reflexivity].
Defined.

(* ================================================================== *)
(** * Properties of the vector index *)
(* ================================================================== *)

Import VectorStoreFacts.

(** C8: on a collection whose chunk ids are distinct, and with the storage
    collaborator behaving as [reference_storage], [deleteDocument]
    returns without throwing for every [documentId]; afterwards the
    collection holds exactly the records whose stored [documentId] differs,
    so nothing changes when no chunk has that [documentId];
    [listDocuments] no longer has a row for it; and [totalChunks] of
    [getStats] is lower by exactly the number of chunks the document had. *)
Theorem deleteDocument_complete
        (nearest : list ChunkRecord -> Embedding -> Z -> list QueryHit)
        (d : jsstring) (w : World) :
  NoDup (map rec_id (chroma w)) ->
  exists w',
    @deleteDocument (reference_storage nearest) d w = (Ok tt, w') /\
    (forall r, In r (chroma w')
               <-> In r (chroma w) /\ documentId (rec_metadata r) <> d) /\
    (filter (matches (Some d)) (chroma w) = [] -> chroma w' = chroma w) /\
    (exists docs w'',
        @listDocuments (reference_storage nearest) w' = (Ok docs, w'') /\
        ~ In d (map doc_documentId docs)) /\
    (exists before after w1 w2,
        @getStats (reference_storage nearest) w = (Ok before, w1) /\
        @getStats (reference_storage nearest) w' = (Ok after, w2) /\
        stats_totalChunks after
        = stats_totalChunks before
          - Z.of_nat (List.length (filter (matches (Some d)) (chroma w)))).
Proof.
  intros Hnd.
  destruct (deleteDocument_reference nearest d w Hnd) as (w' & Hdel & Hleft).
  assert (Hin : forall r, In r (chroma w')
                          <-> In r (chroma w) /\ documentId (rec_metadata r) <> d).
  { intros r. rewrite Hleft, filter_In.
    destruct (matches (Some d) r) eqn:Hm; cbn [negb].
    - apply matches_true in Hm. intuition congruence.
    - split; [|tauto]. intros [Hr _]. split; [exact Hr|].
      intros Heq. apply matches_true in Heq. congruence. }
  exists w'. split; [exact Hdel|]. split; [exact Hin|].
  split; [|split].
  - intros Hnone. rewrite Hleft. now apply filter_none_left.
  - destruct (listDocuments_reference nearest w') as (docs & w'' & Hlist & Hdocs).
    exists docs, w''. split; [exact Hlist|].
    intros Hd. apply in_map_iff in Hd as (doc & Hid & Hdoc).
    destruct (Hdocs doc Hdoc) as (r & Hr & Heq).
    apply Hin in Hr as [_ Hne]. congruence.
  - destruct (getStats_reference nearest w) as (before & w1 & Hb & Hbc).
    destruct (getStats_reference nearest w') as (after & w2 & Ha & Hac).
    exists before, after, w1, w2. repeat split; [exact Hb | exact Ha |].
    rewrite Hac, Hbc, Hleft.
    pose proof (filter_length (matches (Some d)) (chroma w)). lia.
Qed.

Lemma deleteDocument_complete_witness :
  exists w',
    @deleteDocument empty_storage (js "doc_1") indexed_world = (Ok tt, w') /\
    (forall r, In r (chroma w')
               <-> In r (chroma indexed_world)
                   /\ documentId (rec_metadata r) <> js "doc_1") /\
    (filter (matches (Some (js "doc_1"))) (chroma indexed_world) = [] ->
     chroma w' = chroma indexed_world) /\
    (exists docs w'',
        @listDocuments empty_storage w' = (Ok docs, w'') /\
        ~ In (js "doc_1") (map doc_documentId docs)) /\
    (exists before after w1 w2,
        @getStats empty_storage indexed_world = (Ok before, w1) /\
        @getStats empty_storage w' = (Ok after, w2) /\
        stats_totalChunks after
        = stats_totalChunks before
          - Z.of_nat (List.length (filter (matches (Some (js "doc_1")))
                                          (chroma indexed_world)))).
Proof.
  apply (deleteDocument_complete (fun _ _ _ => []) (js "doc_1") indexed_world).
  repeat constructor; cbn; intuition discriminate.
Defined.

(** The sample collection: deleting [doc_1] removes its two chunks and
    leaves the chunk of [doc_2]; deleting an unknown document changes
    nothing. *)
Example deleteDocument_sample_run :
  map rec_id (chroma (snd (@deleteDocument empty_storage (js "doc_1")
                             indexed_world)))
  = [js "doc_2_chunk_0"] /\
  @deleteDocument empty_storage (js "doc_9") indexed_world
  = (Ok tt, indexed_world).
Proof. split; vm_compute; reflexivity. Qed.

(* ================================================================== *)
(** * Properties of the turn controller *)
(* ================================================================== *)

Import Js Client ClientFacts.

(** C1, as stated, fails: after [awaiting_run] the controller of the design
    document is in [AwaitingAgentResponse] and ignores a start-talking
    event, while [startTalking] accepts it: [isTalking] becomes true and
    [response.cancel] and [input_audio_buffer.commit] are sent. *)
Lemma startTalking_accepted_while_awaiting :
  reachable awaiting_page /\
  TurnSpec.turn_state awaiting_run = TurnSpec.AwaitingAgentResponse /\
  TurnSpec.spec_step TurnSpec.AwaitingAgentResponse TurnSpec.startTalking
  = (TurnSpec.AwaitingAgentResponse, []) /\
  step (js "09:00:02") TalkButtonDown awaiting_page <> awaiting_page /\
  isTalking (state (startTalking awaiting_page)) = true /\
  sent (startTalking awaiting_page)
  = sent awaiting_page ++ [ResponseCancel; InputAudioBufferCommit].
Proof.
  repeat split; try reflexivity.
  - now exists awaiting_run.
  - intros H. apply (f_equal (fun p => isTalking (state p))) in H.
    vm_compute in H. discriminate.
Qed.

(** C1 (amended): a start-talking event is ignored (no state change, no
    outbound event) exactly when the session is not connected or the user
    is already talking; in every other state, [AwaitingAgentResponse]
    included, it is accepted: [isTalking] is set, the remote audio is
    muted, the microphone tracks are enabled, and [response.cancel] followed
    by [input_audio_buffer.commit] is sent if the data channel is open. *)
Theorem startTalking_guard (p : Page) :
  (startTalking p = p
   <-> isConnected (state p) = false \/ isTalking (state p) = true) /\
  (isConnected (state p) = true -> isTalking (state p) = false ->
   isTalking (state (startTalking p)) = true /\
   remoteAudio_muted (elements (startTalking p)) = true /\
   localStream (state (startTalking p))
   = option_map (map (fun _ => true)) (localStream (state p)) /\
   sent (startTalking p)
   = sent p ++ match dataChannel (state p) with
               | Some Open => [ResponseCancel; InputAudioBufferCommit]
               | _ => []
               end).
Proof.
  split.
  - split; [|apply startTalking_rejected].
    intros H.
    destruct (isConnected (state p)) eqn:Hc; [|now left].
    destruct (isTalking (state p)) eqn:Ht; [now right|].
    rewrite (startTalking_accepted p Hc Ht) in H.
    apply (f_equal (fun q => isTalking (state q))) in H.
    cbn in H. congruence.
  - intros Hc Ht. rewrite (startTalking_accepted p Hc Ht).
    repeat split; reflexivity.
Qed.

Lemma startTalking_guard_witness :
  isTalking (state (startTalking awaiting_page)) = true /\
  remoteAudio_muted (elements (startTalking awaiting_page)) = true /\
  localStream (state (startTalking awaiting_page))
  = option_map (map (fun _ => true)) (localStream (state awaiting_page)) /\
  sent (startTalking awaiting_page)
  = sent awaiting_page
    ++ match dataChannel (state awaiting_page) with
       | Some Open => [ResponseCancel; InputAudioBufferCommit]
       | _ => []
       end.
Proof.
  apply (proj2 (startTalking_guard awaiting_page)); reflexivity.
Defined.

(** C7, as stated, fails: after a barge-in (the design document's
    controller is in [ListeningToUser] and would drop the event) the late
    [response.audio_transcript.done] of the cancelled turn is handled like
    any other: it adds an examiner entry to the conversation log and
    replaces the current question. *)
Lemma late_transcript_done_is_logged :
  TurnSpec.turn_state (firstn 3 barge_in_run) = TurnSpec.AgentSpeaking /\
  TurnSpec.turn_state barge_in_run = TurnSpec.ListeningToUser /\
  count_occ ClientEvent_eq_dec (sent barge_in_page) ResponseCancel = 1%nat /\
  TurnSpec.spec_step TurnSpec.ListeningToUser TurnSpec.agentTranscriptDone
  = (TurnSpec.ListeningToUser, []) /\
  step (js "09:00:04") late_done barge_in_page <> barge_in_page /\
  conversationHistory (state (step (js "09:00:04") late_done barge_in_page))
  = conversationHistory (state barge_in_page)
    ++ [{| role := examiner; content := js "Good morning. My name is";
           time := js "09:00:04" |}].
Proof.
  repeat split; try reflexivity.
  intros H.
  apply (f_equal (fun p => List.length (conversationHistory (state p)))) in H.
  vm_compute in H. discriminate.
Qed.

(** C7 (amended): after the user barges in, a completed agent-speech
    transcript that arrives for the cancelled turn is not dropped; it is
    handled like any other: the accumulation buffer is cleared, the
    transcript becomes the current question and exactly one examiner entry
    is appended to the conversation log.  The talking episode itself is
    untouched: [isTalking], [isConnected], the mute flag and the events
    sent stay as the barge-in left them. *)
Theorem late_transcript_done_after_barge_in (now transcript : jsstring)
        (p : Page) :
  let q := startTalking p in
  let r := step now (ChannelMessage (ResponseAudioTranscriptDone transcript)) q in
  conversationHistory (state r)
  = conversationHistory (state q)
    ++ [{| role := examiner; content := transcript; time := now |}] /\
  currentAssistantTranscript r = [] /\
  currentQuestion (elements r) = transcript /\
  isTalking (state r) = isTalking (state q) /\
  isConnected (state r) = isConnected (state q) /\
  remoteAudio_muted (elements r) = remoteAudio_muted (elements q) /\
  sent r = sent q.
Proof.
  intros q r. subst r. generalize q. clear q p. intros q.
  cbn [step handleRealtimeEvent]. unfold handleAssistantTranscriptDone.
  match goal with
  | |- context [parseFeedback ?t ?x] =>
      destruct (parseFeedback_frame t x)
        as (Hh & Ht & Hc & _ & _ & Hq & Hm & Hb & Hs)
  end.
  cbn zeta in *.
  rewrite Hh, Ht, Hc, Hq, Hm, Hb, Hs. cbn. repeat split; reflexivity.
Qed.

(** C10: [startTalking] changes nothing (state, elements, microphone
    tracks, mute flag, events sent) when the session is not connected or
    the user is already talking, and [stopTalking] changes nothing when the
    session is not connected or the user is not talking; so a second start
    (or stop) in a row does nothing more than the first. *)
Theorem talking_guards_idempotent (p : Page) :
  (isConnected (state p) = false \/ isTalking (state p) = true ->
   startTalking p = p) /\
  (isConnected (state p) = false \/ isTalking (state p) = false ->
   stopTalking p = p) /\
  startTalking (startTalking p) = startTalking p /\
  stopTalking (stopTalking p) = stopTalking p.
Proof.
  split; [apply startTalking_rejected|].
  split; [apply stopTalking_rejected|].
  split.
  - destruct (isConnected (state p)) eqn:Hc;
      [|now rewrite !(startTalking_rejected p (or_introl Hc))].
    destruct (isTalking (state p)) eqn:Ht;
      [now rewrite !(startTalking_rejected p (or_intror Ht))|].
    rewrite (startTalking_accepted p Hc Ht).
    apply startTalking_rejected. now right.
  - destruct (isConnected (state p)) eqn:Hc;
      [|now rewrite !(stopTalking_rejected p (or_introl Hc))].
    destruct (isTalking (state p)) eqn:Ht;
      [|now rewrite !(stopTalking_rejected p (or_intror Ht))].
    rewrite (stopTalking_accepted p Hc Ht).
    apply stopTalking_rejected. now right.
Qed.

Lemma talking_guards_idempotent_witness :
  startTalking barge_in_page = barge_in_page /\
  stopTalking awaiting_page = awaiting_page /\
  startTalking (startTalking awaiting_page) = startTalking awaiting_page /\
  stopTalking (stopTalking barge_in_page) = stopTalking barge_in_page.
Proof.
  pose proof (talking_guards_idempotent barge_in_page) as (H1 & _ & _ & H4).
  pose proof (talking_guards_idempotent awaiting_page) as (_ & H2 & H3 & _).
  split; [apply H1; right; reflexivity|].
  split; [apply H2; right; reflexivity|].
  split; [exact H3 | exact H4].
Defined.

(* ================================================================== *)
(** * Properties of session creation *)
(* ================================================================== *)

Import ServerFacts.

(** The earlier copy of the server hands the credential to [console.log]
    on every successful session creation. *)
Lemma legacy_call_logs_every_credential
      {realtime : RealtimeApi} (IELTS_INSTRUCTIONS key : jsstring)
      (req : Request) (w : World) (response : FetchResponse)
      (data : SessionData) :
  key <> [] ->
  (forall config, create_session key config = Ok response) ->
  resp_ok response = true -> resp_json response = Ok data ->
  fst (post_realtime_call_legacy (Some key) IELTS_INSTRUCTIONS req w)
  = Ok (session_answer data) /\
  In {| level := Log;
        args := [LStr (js "Client Secret:"); LSecret (client_secret data)] |}
     (console (snd (post_realtime_call_legacy (Some key) IELTS_INSTRUCTIONS
                                               req w))).
Proof.
  intros Hkey Hfetch Hok Hjson.
  destruct key as [|c key]; [congruence|].
  unfold post_realtime_call_legacy, try_catch, bind, console_log, log_line, call.
  cbn. rewrite Hfetch, Hok, Hjson. cbn. split; [reflexivity|].
  rewrite !in_app_iff. right. now left.
Qed.

(** C2 fails on the earlier copy of the server: with the key in the
    environment and the session created, its [/api/realtime/call] handler
    answers with the credential and also hands it to [console.log]
    (['Client Secret:', data.client_secret]). *)
Theorem legacy_call_logs_credential :
  fst (@post_realtime_call_legacy sample_realtime_api (Some (js "sk-test"))
         (js "You are an IELTS Speaking Examiner") call_request fresh_world)
  = Ok (session_answer sample_session) /\
  credential_logged
    (snd (@post_realtime_call_legacy sample_realtime_api (Some (js "sk-test"))
            (js "You are an IELTS Speaking Examiner") call_request
            fresh_world))
  = true /\
  last (console
          (snd (@post_realtime_call_legacy sample_realtime_api
                  (Some (js "sk-test"))
                  (js "You are an IELTS Speaking Examiner") call_request
                  fresh_world)))
       {| level := Log; args := [] |}
  = {| level := Log;
       args := [LStr (js "Client Secret:"); LSecret sample_secret] |}.
Proof. repeat split; vm_compute; reflexivity. Qed.

(** The handler of server.js, in every execution and whatever the
    collaborators do, hands no credential to the console: a console that
    held none holds none afterwards. *)
Theorem post_realtime_call_never_logs_credential
        {api : EmbeddingApi} {storage : StorageApi} {realtime : RealtimeApi}
        (OPENAI_API_KEY : option jsstring) (IELTS_INSTRUCTIONS : jsstring)
        (req : Request) (w : World) :
  credential_logged w = false ->
  credential_logged
    (snd (post_realtime_call OPENAI_API_KEY IELTS_INSTRUCTIONS req w))
  = false.
Proof. apply quiet_post_realtime_call. Qed.

(** On the sample request server.js gives the same answer as its earlier
    copy, credential included, and logs no credential. *)
Example post_realtime_call_sample_run :
  fst (@post_realtime_call sample_embedding_api empty_storage
         sample_realtime_api (Some (js "sk-test"))
         (js "You are an IELTS Speaking Examiner") call_request fresh_world)
  = Ok (session_answer sample_session) /\
  json_field "clientSecret" (body (session_answer sample_session))
  = Some (secret_json sample_secret) /\
  credential_logged
    (snd (@post_realtime_call sample_embedding_api empty_storage
            sample_realtime_api (Some (js "sk-test"))
            (js "You are an IELTS Speaking Examiner") call_request
            fresh_world))
  = false.
Proof. repeat split; vm_compute; reflexivity. Qed.

(* ================================================================== *)
(** * More facts about strings and the chunker *)
(* ================================================================== *)

Module ChunkerMore.
Import JsString JsStringFacts Chunker ChunkerFacts ChunkerProps.

Lemma is_space_space : is_space space = true.
Proof. reflexivity. Qed.

Lemma is_newline_is_space (c : ascii) : is_newline c = true -> is_space c = true.
Proof.
  unfold is_newline, is_space. intros H. apply N.eqb_eq in H. now rewrite H.
Qed.

(** ** Collapsing runs *)

Lemma replace_runs_spaced (b : bool) (s : jsstring) :
  spaced_from b (replace_runs_from is_space space b s).
Proof.
  revert b. induction s as [|c r IH]; intros b; cbn [replace_runs_from];
    [exact I|].
  destruct (is_space c) eqn:Ec.
  - destruct b; [apply IH|].
    cbn [spaced_from]. rewrite is_space_space. split; [now split | apply IH].
  - cbn [spaced_from]. rewrite Ec. split; [discriminate | apply IH].
Qed.

Lemma replace_runs_fixed (b : bool) (s : jsstring) :
  spaced_from b s -> replace_runs_from is_space space b s = s.
Proof.
  revert b. induction s as [|c r IH]; intros b; cbn [replace_runs_from spaced_from];
    [reflexivity|].
  intros [Hc Hr]. destruct (is_space c) eqn:Ec.
  - destruct (Hc eq_refl) as [-> ->]. now rewrite (IH true Hr).
  - now rewrite (IH false Hr).
Qed.

(** A string without white space other than spaces has no newline, and
    collapsing its newlines changes nothing. *)
Lemma spaced_no_newline (b : bool) (s : jsstring) (c : ascii) :
  spaced_from b s -> In c s -> is_newline c = false.
Proof.
  revert b. induction s as [|x r IH]; intros b; cbn [spaced_from In];
    [contradiction|].
  intros [Hx Hr] [<- | Hin]; [|exact (IH _ Hr Hin)].
  destruct (is_newline x) eqn:En; [|reflexivity].
  destruct (Hx (is_newline_is_space x En)) as [-> _]. discriminate.
Qed.

Lemma replace_newlines_fixed (b b' : bool) (s : jsstring) :
  spaced_from b s -> replace_runs_from is_newline newline b' s = s.
Proof.
  revert b b'. induction s as [|x r IH]; intros b b' H;
    cbn [replace_runs_from]; [reflexivity|].
  rewrite (spaced_no_newline b (x :: r) x H (or_introl eq_refl)).
  destruct H as [_ Hr]. now rewrite (IH _ false Hr).
Qed.

(** ** Pieces of a spaced string *)

Lemma spaced_weaken (b : bool) (s : jsstring) :
  spaced_from b s -> spaced_from false s.
Proof.
  destruct s as [|c r]; cbn [spaced_from]; [trivial|].
  intros [Hc Hr]. split; [|exact Hr].
  intros E. destruct (Hc E) as [-> _]. now split.
Qed.

Lemma spaced_skipn (j : nat) (b : bool) (s : jsstring) :
  spaced_from b s -> spaced_from false (skipn j s).
Proof.
  revert b s. induction j as [|j IH]; intros b s H; cbn [skipn].
  - exact (spaced_weaken b s H).
  - destruct s as [|c r]; [exact I|]. destruct H as [_ Hr]. exact (IH _ _ Hr).
Qed.

Lemma spaced_firstn (k : nat) (b : bool) (s : jsstring) :
  spaced_from b s -> spaced_from b (firstn k s).
Proof.
  revert b s. induction k as [|k IH]; intros b s H; cbn [firstn];
    [exact I|].
  destruct s as [|c r]; [exact I|]. destruct H as [Hc Hr].
  cbn [spaced_from]. split; [exact Hc | exact (IH _ _ Hr)].
Qed.

Lemma spaced_In (b : bool) (s : jsstring) (c : ascii) :
  spaced_from b s -> In c s -> is_space c = true -> c = space.
Proof.
  revert b. induction s as [|x r IH]; intros b; cbn [spaced_from In];
    [contradiction|].
  intros [Hx Hr] [<- | Hin] E; [now destruct (Hx E) | exact (IH _ Hr Hin E)].
Qed.

Lemma spaced_adjacent (b : bool) (s : jsstring) (i : nat) (x y : ascii) :
  spaced_from b s ->
  nth_error s i = Some x -> nth_error s (S i) = Some y ->
  is_space x = true -> is_space y = false.
Proof.
  revert b i. induction s as [|c r IH]; intros b i; cbn [spaced_from];
    [destruct i; discriminate|].
  intros [_ Hr] Hx Hy Ex. destruct i as [|i]; cbn in Hx, Hy.
  - injection Hx as ->. destruct r as [|d r']; [discriminate|].
    cbn in Hy. injection Hy as ->. destruct Hr as [Hd _].
    destruct (is_space y) eqn:Ey; [|reflexivity].
    destruct (Hd eq_refl) as [_ Hb]. congruence.
  - exact (IH _ i Hr Hx Hy Ex).
Qed.

(** ** Trimming *)

Lemma trimStart_head (s : jsstring) (c : ascii) :
  hd_error (trimStart s) = Some c -> is_space c = false.
Proof.
  induction s as [|x r IH]; cbn [trimStart]; [discriminate|].
  destruct (is_space x) eqn:Ex; [exact IH|].
  cbn. now intros [= <-].
Qed.

Lemma trimStart_fixed (s : jsstring) :
  (forall c, hd_error s = Some c -> is_space c = false) -> trimStart s = s.
Proof.
  destruct s as [|x r]; cbn [trimStart hd_error]; [reflexivity|].
  intros H. now rewrite (H x eq_refl).
Qed.

Lemma trim_trimmed (s : jsstring) : trimmed (trim s).
Proof.
  unfold trimmed, trim, trimEnd. split.
  - intros c Hc.
    destruct (trimEnd_spec (trimStart s)) as (k & Hk & _ & _).
    unfold trimEnd in Hk. rewrite Hk in Hc.
    apply (trimStart_head s c).
    destruct (trimStart s) as [|x r]; destruct k; cbn in *; congruence.
  - intros c. rewrite rev_involutive. apply trimStart_head.
Qed.

Lemma trimmed_fixed (s : jsstring) : trimmed s -> trim s = s.
Proof.
  intros [Hhd Hlast]. unfold trim, trimEnd.
  rewrite (trimStart_fixed s Hhd), (trimStart_fixed (rev s) Hlast).
  apply rev_involutive.
Qed.

Lemma trim_idempotent (s : jsstring) : trim (trim s) = trim s.
Proof. apply trimmed_fixed, trim_trimmed. Qed.

Lemma trim_spaced (b : bool) (s : jsstring) :
  spaced_from b s -> spaced_from false (trim s).
Proof.
  intros H. destruct (trim_spec s) as (j & k & -> & _ & _).
  apply spaced_firstn. exact (spaced_skipn j b s H).
Qed.

(** ** The normalized text *)

Lemma cleanText_unfold (text : jsstring) :
  cleanText text = trim (replace_runs is_space space text).
Proof.
  unfold cleanText, replace_runs.
  now rewrite (replace_newlines_fixed false false _
                 (replace_runs_spaced false text)).
Qed.

Lemma cleanText_spaced (text : jsstring) : spaced_from false (cleanText text).
Proof.
  rewrite cleanText_unfold.
  exact (trim_spaced false _ (replace_runs_spaced false text)).
Qed.

Lemma cleanText_trimmed (text : jsstring) : trimmed (cleanText text).
Proof. rewrite cleanText_unfold. apply trim_trimmed. Qed.

(** ** Searching and slicing *)

Lemma lastIndexOf_from_absent (c : ascii) (s : jsstring) (i found : Z) :
  ~ In c s -> lastIndexOf_from c s i found = found.
Proof.
  revert i found. induction s as [|x r IH]; intros i found Hc;
    cbn [lastIndexOf_from]; [reflexivity|].
  destruct (Ascii.eqb_spec x c) as [-> | _]; [exfalso; apply Hc; now left|].
  apply IH. intros Hin. apply Hc. now right.
Qed.

Lemma lastIndexOf_absent (c : ascii) (s : jsstring) :
  ~ In c s -> lastIndexOf c s = -1.
Proof. apply lastIndexOf_from_absent. Qed.

Lemma slice_In (s : jsstring) (b e : Z) (c : ascii) :
  In c (slice s b e) -> In c s.
Proof.
  unfold slice. intros H.
  set (m := Z.to_nat (slice_index (jslength s) b)) in *.
  set (n := Z.to_nat _) in H.
  rewrite <- (firstn_skipn m s). apply in_or_app. right.
  rewrite <- (firstn_skipn n (skipn m s)). apply in_or_app. now left.
Qed.

Lemma occurs_at_piece (s : jsstring) (m n : nat) :
  occurs_at (firstn n (skipn m s)) s m.
Proof.
  unfold occurs_at. rewrite length_firstn, <- firstn_firstn.
  now rewrite firstn_all.
Qed.

Lemma slice_occurs (s : jsstring) (b e : Z) :
  exists off, occurs_at (slice s b e) s off.
Proof. unfold slice. eexists. apply occurs_at_piece. Qed.

Lemma occurs_at_trans (x y z : jsstring) (o1 o2 : nat) :
  occurs_at x y o1 -> occurs_at y z o2 -> occurs_at x z (o1 + o2).
Proof.
  unfold occurs_at. intros Hx Hy.
  assert (E : skipn o1 y
              = firstn (List.length y - o1) (skipn (o1 + o2) z)).
  { transitivity (skipn o1 (firstn (List.length y) (skipn o2 z)));
      [now rewrite Hy|].
    now rewrite skipn_firstn_comm, skipn_skipn. }
  assert (Hlen : (List.length x <= List.length y - o1)%nat).
  { rewrite <- Hx, length_firstn, length_skipn. lia. }
  etransitivity; [|exact Hx].
  rewrite E, firstn_firstn. f_equal. lia.
Qed.

Section AnyParameters.
Variable clean : jsstring.
Variables chunkSize overlap : Z.

(** Whatever the parameters, a window is a piece of the text. *)
Lemma chunk_step_occurs (startIndex : Z) :
  exists off,
    occurs_at (fst (chunk_step clean chunkSize overlap startIndex))
              clean off.
Proof.
  unfold chunk_step.
  set (w := slice clean startIndex
                  (Z.min (startIndex + chunkSize) (jslength clean))).
  destruct (slice_occurs clean startIndex
              (Z.min (startIndex + chunkSize) (jslength clean)))
    as [o2 Ho2]. fold w in Ho2.
  destruct (_ <? jslength clean); [|now exists o2].
  destruct (chunkSize <? _); [|now exists o2].
  cbn [fst].
  destruct (slice_occurs w 0
              (Z.max (lastIndexOf period w) (lastIndexOf newline w) + 1))
    as [o1 Ho1].
  exists (o1 + o2)%nat. exact (occurs_at_trans _ _ _ _ _ Ho1 Ho2).
Qed.

Lemma chunk_windows_occur (fuel : nat) (startIndex : Z)
      (ws : list jsstring) :
  chunk_windows fuel clean chunkSize overlap startIndex = Some ws ->
  forall w, In w ws -> exists off, occurs_at w clean off.
Proof.
  revert startIndex ws.
  induction fuel as [|fuel IH]; intros startIndex ws;
    cbn [chunk_windows];
    destruct (startIndex <? jslength clean);
    try discriminate; try (intros [= <-] w []).
  pose proof (chunk_step_occurs startIndex) as Hocc.
  destruct (chunk_step clean chunkSize overlap startIndex)
    as [chunk next].
  destruct (chunk_windows fuel clean chunkSize overlap next)
    as [rest|] eqn:E; [|discriminate].
  intros [= <-] w [<- | Hin]; [exact Hocc | exact (IH next rest E w Hin)].
Qed.

End AnyParameters.

(** What [pushed] keeps of a window: its trimmed form, when that is not
    empty. *)
Lemma pushed_In (ws : list jsstring) (chunk : jsstring) :
  In chunk (pushed ws) <->
  exists w, In w ws /\ chunk = trim w /\ chunk <> [].
Proof.
  unfold pushed. rewrite in_flat_map. unfold push_chunk, jslength.
  split.
  - intros (w & Hw & Hin). exists w. split; [exact Hw|].
    destruct (Z.ltb_spec 0 (Z.of_nat (List.length (trim w))));
      [|contradiction].
    destruct Hin as [<- | []]. split; [reflexivity|].
    destruct (trim w); [cbn in *; lia | discriminate].
  - intros (w & Hw & -> & Hne). exists w. split; [exact Hw|].
    destruct (Z.ltb_spec 0 (Z.of_nat (List.length (trim w))));
      [now left|].
    destruct (trim w); [congruence | cbn in *; lia].
Qed.

Lemma trim_occurs (w : jsstring) : exists off, occurs_at (trim w) w off.
Proof.
  destruct (trim_spec w) as (j & k & -> & _ & _).
  exists j. apply occurs_at_piece.
Qed.

(** White space only normalizes to the empty string. *)
Lemma replace_runs_all_space (b : bool) (s : jsstring) :
  forallb is_space s = true ->
  replace_runs_from is_space space b s = [] \/
  replace_runs_from is_space space b s = [space].
Proof.
  revert b. induction s as [|c r IH]; intros b; cbn [forallb replace_runs_from];
    [now left|].
  intros H. apply andb_prop in H as [Hc Hr]. rewrite Hc.
  assert (Htrue : replace_runs_from is_space space true r = []).
  { clear -Hr. induction r as [|d r IH]; cbn [replace_runs_from forallb] in *;
      [reflexivity|].
    apply andb_prop in Hr as [Hd Hr]. rewrite Hd. exact (IH Hr). }
  destruct b; [left | right]; now rewrite Htrue.
Qed.

End ChunkerMore.

(* ================================================================== *)
(** * More facts about the embedder *)
(* ================================================================== *)

Module EmbedderMore.
Import JsString Js Collaborators Embedder.

Section WithApi.
Context {api : EmbeddingApi}.

(** A run of the loop that ends well wrote one console line per batch
    and touched nothing else. *)
Lemma embed_batches_lines (key : jsstring) (chunks : list jsstring)
      (i : nat) (embeddings : list Embedding) (w : World) :
  forall vs w',
    embed_batches key chunks i embeddings w = (Ok vs, w') ->
    List.length (console w')
    = (List.length (console w)
       + (List.length chunks - i + 19) / 20)%nat /\
    chroma w' = chroma w /\ collection w' = collection w.
Proof.
  funelim (embed_batches key chunks i embeddings w); intros vs w' Hrun.
  - injection Hrun as <- <-.
    replace (List.length chunks - i)%nat with 0%nat by lia.
    rewrite Nat.div_small by lia. repeat split; lia.
  - destruct (H vs w' Hrun) as (Hlen & Hc & Hcol).
    cbn [console chroma collection with_console] in *.
    rewrite length_app in Hlen. cbn [List.length] in Hlen.
    unfold batchSize in Hlen.
    repeat split; [|exact Hc | exact Hcol].
    rewrite Hlen.
    assert (E : ((List.length chunks - i + 19) / 20
                 = 1 + (List.length chunks - (i + 20) + 19) / 20)%nat).
    { destruct (Nat.le_gt_cases 20 (List.length chunks - i)) as [Hge | Hlt].
      - replace (List.length chunks - i + 19)%nat
          with (List.length chunks - (i + 20) + 19 + 1 * 20)%nat by lia.
        rewrite Nat.div_add by lia. lia.
      - replace (List.length chunks - (i + 20))%nat with 0%nat by lia.
        assert (H1 : (1 <= (List.length chunks - i + 19) / 20)%nat)
          by (apply Nat.div_le_lower_bound; lia).
        assert (H2 : ((List.length chunks - i + 19) / 20 < 2)%nat)
          by (apply Nat.Div0.div_lt_upper_bound; lia).
        rewrite (Nat.div_small (0 + 19) 20) by lia. lia. }
    lia.
  - discriminate.
Qed.

(** A throw of the loop leaves the records and the handle alone. *)
Lemma embed_batches_throw (key : jsstring) (chunks : list jsstring)
      (i : nat) (embeddings : list Embedding) (w : World) :
  forall e w',
    embed_batches key chunks i embeddings w = (Throw e, w') ->
    chroma w' = chroma w /\ collection w' = collection w.
Proof.
  funelim (embed_batches key chunks i embeddings w); intros e' w' Hrun.
  - discriminate.
  - destruct (H e' w' Hrun) as [Hc Hcol]. now split.
  - injection Hrun as <- <-. now split.
Qed.

End WithApi.
End EmbedderMore.

(* ================================================================== *)
(** * More facts about the vector index *)
(* ================================================================== *)

Module StoreMore.
Import JsString Js Collaborators VectorStore VectorStoreFacts VectorStoreAdd.
Local Open Scope js_scope.

(** ** Grouping by document *)

Lemma has_key (k : jsstring) (acc : list (jsstring * DocumentSummary)) :
  existsb (fun entry => jsstring_eqb (fst entry) k) acc = true
  <-> In k (map fst acc).
Proof.
  rewrite existsb_exists, in_map_iff. split.
  - intros (entry & Hin & Heq). apply jsstring_eqb_true in Heq. eauto.
  - intros (entry & Heq & Hin). exists entry. split; [exact Hin|].
    now apply jsstring_eqb_true.
Qed.

Lemma group_documents_keys (metadatas : list Metadata)
      (acc : list (jsstring * DocumentSummary)) (k : jsstring) :
  In k (map fst (group_documents acc metadatas))
  <-> In k (map fst acc) \/ In k (map documentId metadatas).
Proof.
  revert acc. induction metadatas as [|m rest IH]; intros acc;
    cbn [group_documents map In]; [tauto|].
  destruct (existsb _ acc) eqn:E.
  - apply has_key in E. rewrite IH. split; [tauto|].
    intros [H | [<- | H]]; tauto.
  - rewrite IH, map_app, in_app_iff. cbn [map fst In]. tauto.
Qed.

Lemma group_documents_distinct (metadatas : list Metadata)
      (acc : list (jsstring * DocumentSummary)) :
  NoDup (map fst acc) -> NoDup (map fst (group_documents acc metadatas)).
Proof.
  revert acc. induction metadatas as [|m rest IH]; intros acc Hnd;
    cbn [group_documents]; [exact Hnd|].
  destruct (existsb _ acc) eqn:E; [now apply IH|].
  apply IH. rewrite map_app. cbn [map fst].
  assert (Hfresh : ~ In (documentId m) (map fst acc)).
  { intros Hin. apply has_key in Hin. congruence. }
  clear -Hnd Hfresh. induction (map fst acc) as [|x l IHl]; cbn.
  - constructor; [tauto | constructor].
  - inversion Hnd; subst. constructor.
    + rewrite in_app_iff. cbn. intros [H | [H | []]]; [tauto|].
      apply Hfresh. now left.
    + apply IHl; [assumption|]. intros H. apply Hfresh. now right.
Qed.

Lemma group_documents_first (metadatas : list Metadata)
      (acc : list (jsstring * DocumentSummary)) (k : jsstring)
      (s : DocumentSummary) :
  In (k, s) (group_documents acc metadatas) ->
  In (k, s) acc \/
  (~ In k (map fst acc) /\
   exists m, first_of k metadatas = Some m /\ s = summary m).
Proof.
  revert acc. induction metadatas as [|m rest IH]; intros acc;
    cbn [group_documents]; [now left|].
  unfold first_of in *. cbn [find].
  destruct (existsb _ acc) eqn:E; intros Hin.
  - apply has_key in E.
    destruct (IH acc Hin) as [H | (Hk & m' & Hfind & ->)]; [now left|].
    right. split; [exact Hk|]. exists m'. split; [|reflexivity].
    destruct (jsstring_eqb (documentId m) k) eqn:Ek; [|exact Hfind].
    apply jsstring_eqb_true in Ek. congruence.
  - assert (Hfresh : ~ In (documentId m) (map fst acc)).
    { intros H. apply has_key in H. congruence. }
    destruct (IH _ Hin) as [H | (Hk & m' & Hfind & ->)].
    + apply in_app_or in H as [H | [[= <- <-] | []]]; [now left|].
      right. split; [exact Hfresh|]. exists m. split; [|reflexivity].
      now rewrite (proj2 (jsstring_eqb_true _ _) eq_refl).
    + right. rewrite map_app, in_app_iff in Hk. cbn [map fst In] in Hk.
      split; [tauto|]. exists m'. split; [|reflexivity].
      destruct (jsstring_eqb (documentId m) k) eqn:Ek; [|exact Hfind].
      apply jsstring_eqb_true in Ek. tauto.
Qed.

Lemma first_of_id (k : jsstring) (metadatas : list Metadata) (m : Metadata) :
  first_of k metadatas = Some m -> documentId m = k /\ In m metadatas.
Proof.
  unfold first_of. intros H. apply find_some in H as [Hin Heq].
  split; [now apply jsstring_eqb_true | exact Hin].
Qed.

(** The rows of [listDocuments] for the metadata [metadatas]. *)
Lemma rows_spec (metadatas : list Metadata) :
  let rows := map snd (group_documents [] metadatas) in
  NoDup (map doc_documentId rows) /\
  (forall d, In d (map doc_documentId rows)
             <-> In d (map documentId metadatas)) /\
  (forall row, In row rows ->
               exists m, first_of (doc_documentId row) metadatas = Some m /\
                         row = summary m).
Proof.
  cbn zeta.
  assert (Hkeyed : forall k s,
             In (k, s) (group_documents [] metadatas) ->
             exists m, first_of k metadatas = Some m /\ s = summary m /\
                       doc_documentId s = k).
  { intros k s Hin.
    destruct (group_documents_first metadatas [] k s Hin)
      as [[] | (_ & m & Hfind & ->)].
    exists m. repeat split; [exact Hfind|].
    apply (first_of_id k metadatas m Hfind). }
  assert (Hids : map doc_documentId (map snd (group_documents [] metadatas))
                 = map fst (group_documents [] metadatas)).
  { rewrite map_map. apply map_ext_in. intros [k s] Hin.
    destruct (Hkeyed k s Hin) as (_ & _ & _ & H). exact H. }
  rewrite Hids. repeat split.
  - apply group_documents_distinct. constructor.
  - intros H. apply group_documents_keys in H as [[] | H]. exact H.
  - intros H. apply group_documents_keys. now right.
  - intros row Hrow. apply in_map_iff in Hrow as ([k s] & <- & Hin).
    destruct (Hkeyed k s Hin) as (m & Hfind & -> & Hid).
    exists m. cbn [snd]. rewrite Hid. now split.
Qed.

Lemma filter_all (records : list ChunkRecord) :
  filter (matches None) records = records.
Proof.
  induction records as [|r rs IH]; cbn; [reflexivity | now rewrite IH].
Qed.

Section WithReference.
Variable nearest : list ChunkRecord -> Embedding -> Z -> list QueryHit.

Lemma listDocuments_rows (w : World) :
  exists w',
    @listDocuments (reference_storage nearest) w
    = (Ok (map snd (group_documents []
                      (map rec_metadata (chroma w)))), w') /\
    chroma w' = chroma w.
Proof.
  unfold listDocuments, try_catch, bind.
  destruct (getCollection_reference nearest w) as (w1 & -> & Hw1).
  cbn [coll_get reference_storage get_metadatas reference_get ret].
  rewrite filter_all, Hw1. now exists w1.
Qed.

End WithReference.

(** ** Ids and metadata written by [addDocuments] *)

Lemma of_string_inj (a b : string) : of_string a = of_string b -> a = b.
Proof.
  unfold of_string. intros H.
  apply (f_equal string_of_list_ascii) in H.
  now rewrite !string_of_list_ascii_of_string in H.
Qed.

Lemma Z_to_js_inj (a b : Z) : Z_to_js a = Z_to_js b -> a = b.
Proof.
  unfold Z_to_js. intros H. apply of_string_inj in H.
  apply DecimalZ.to_int_inj.
  assert (E : Some (Z.to_int a) = Some (Z.to_int b))
    by (now rewrite <- !NilEmpty.isi, H).
  now injection E.
Qed.

Lemma chunk_id_inj (d : jsstring) (i j : nat) :
  chunk_id d i = chunk_id d j -> i = j.
Proof.
  unfold chunk_id. intros H.
  apply app_inv_head, app_inv_head, Z_to_js_inj in H. lia.
Qed.

Lemma chunk_ids_from_In (d : jsstring) (chunks : list jsstring)
      (index : nat) (i : jsstring) :
  In i (chunk_ids_from d index chunks) ->
  exists k, (index <= k < index + List.length chunks)%nat /\ i = chunk_id d k.
Proof.
  revert index. induction chunks as [|c rest IH]; intros index;
    cbn [chunk_ids_from In List.length]; [contradiction|].
  intros [<- | H].
  - exists index. split; [lia | reflexivity].
  - destruct (IH _ H) as (k & Hk & ->). exists k. split; [lia | reflexivity].
Qed.

Lemma chunk_ids_distinct (d : jsstring) (chunks : list jsstring)
      (index : nat) :
  NoDup (chunk_ids_from d index chunks).
Proof.
  revert index. induction chunks as [|c rest IH]; intros index;
    cbn [chunk_ids_from]; constructor; [|apply IH].
  intros H. apply chunk_ids_from_In in H as (k & Hk & Heq).
  apply chunk_id_inj in Heq. lia.
Qed.

Lemma chunk_ids_length (d : jsstring) (chunks : list jsstring) (index : nat) :
  List.length (chunk_ids_from d index chunks) = List.length chunks.
Proof.
  revert index. induction chunks as [|c rest IH]; intros index; cbn;
    [reflexivity | now rewrite IH].
Qed.

Lemma chunk_metadatas_length (d f u : jsstring) (total : nat)
      (chunks : list jsstring) (index : nat) :
  List.length (chunk_metadatas_from d f u total index chunks)
  = List.length chunks.
Proof.
  revert index. induction chunks as [|c rest IH]; intros index; cbn;
    [reflexivity | now rewrite IH].
Qed.

(** The record written for the chunk at position [i]. *)
Lemma records_of_nth (d f u : jsstring) (total : nat)
      (chunks : list jsstring) (embeddings : list Embedding)
      (index i : nat) (chunk : jsstring) :
  List.length embeddings = List.length chunks ->
  nth_error chunks i = Some chunk ->
  exists e,
    nth_error embeddings i = Some e /\
    nth_error (records_of (chunk_ids_from d index chunks) embeddings
                 (chunk_metadatas_from d f u total index chunks) chunks) i
    = Some {| rec_id := chunk_id d (index + i);
              rec_embedding := e;
              rec_metadata := chunk_metadata d f u total (index + i) chunk;
              rec_document := chunk |}.
Proof.
  revert embeddings index i.
  induction chunks as [|c rest IH]; intros embeddings index i Hlen Hi;
    [destruct i; discriminate|].
  destruct embeddings as [|e es]; [discriminate|].
  cbn [chunk_ids_from chunk_metadatas_from records_of].
  destruct i as [|i]; cbn [nth_error] in *.
  - injection Hi as ->. exists e. rewrite Nat.add_0_r. now split.
  - cbn [List.length] in Hlen.
    destruct (IH es (S index) i ltac:(lia) Hi) as (e' & He' & Hrec).
    exists e'. split; [exact He'|].
    now replace (index + S i)%nat with (S index + i)%nat by lia.
Qed.

Lemma records_of_ids (ids : list jsstring) (embeddings : list Embedding)
      (metadatas : list Metadata) (documents : list jsstring) :
  List.length embeddings = List.length ids ->
  List.length metadatas = List.length ids ->
  List.length documents = List.length ids ->
  map rec_id (records_of ids embeddings metadatas documents) = ids.
Proof.
  revert embeddings metadatas documents.
  induction ids as [|i ids IH]; intros [|e es] [|m ms] [|d ds];
    cbn [List.length records_of map]; try discriminate; try reflexivity.
  intros He Hm Hd. f_equal. apply IH; lia.
Qed.

Lemma records_of_documents (d f u : jsstring) (total : nat)
      (chunks : list jsstring) (embeddings : list Embedding) (index : nat)
      (r : ChunkRecord) :
  In r (records_of (chunk_ids_from d index chunks) embeddings
          (chunk_metadatas_from d f u total index chunks) chunks) ->
  documentId (rec_metadata r) = d.
Proof.
  revert embeddings index.
  induction chunks as [|c rest IH]; intros [|e es] index;
    cbn [chunk_ids_from chunk_metadatas_from records_of In];
    try contradiction.
  intros [<- | H]; [reflexivity | exact (IH _ _ H)].
Qed.

End StoreMore.

(* ================================================================== *)
(** * Further properties of the chunker *)
(* ================================================================== *)

Import ChunkerProps ChunkerMore.

(** X1: the text [chunkText] cuts is in normal form: its only white-space
    character is the space, no two spaces are adjacent, it neither starts
    nor ends with white space, and it holds no newline, so that no window
    has a newline to break at ([lastNewline] is always [-1]). *)
Theorem cleanText_normal_form (text : jsstring) :
  (forall c, In c (cleanText text) -> is_space c = true -> c = space) /\
  (forall i x y,
      nth_error (cleanText text) i = Some x ->
      nth_error (cleanText text) (S i) = Some y ->
      is_space x = true -> is_space y = false) /\
  (forall c, hd_error (cleanText text) = Some c -> is_space c = false) /\
  (forall c, hd_error (rev (cleanText text)) = Some c -> is_space c = false) /\
  (forall b e, lastIndexOf newline (slice (cleanText text) b e) = -1).
Proof.
  pose proof (cleanText_spaced text) as Hs.
  pose proof (cleanText_trimmed text) as [Hhd Hlast].
  repeat split.
  - intros c. exact (spaced_In false _ c Hs).
  - intros i x y. exact (spaced_adjacent false _ i x y Hs).
  - exact Hhd.
  - exact Hlast.
  - intros b e. apply lastIndexOf_absent. intros Hin.
    apply slice_In in Hin.
    pose proof (spaced_no_newline false _ newline Hs Hin). discriminate.
Qed.

(** X2: normalizing is idempotent: the normalized text is its own
    normalization. *)
Theorem cleanText_idempotent (text : jsstring) :
  cleanText (cleanText text) = cleanText text.
Proof.
  rewrite (cleanText_unfold (cleanText text)). unfold replace_runs.
  rewrite (replace_runs_fixed false _ (cleanText_spaced text)).
  apply trimmed_fixed, cleanText_trimmed.
Qed.

(** X3: whatever the parameters, every chunk [chunkText] returns is not
    empty, neither starts nor ends with white space, and is a contiguous
    piece of the normalized text. *)
Theorem chunks_are_trimmed_pieces (fuel : nat) (text : jsstring)
        (chunkSize overlap : Z) (chunks : list jsstring) :
  chunkText_fuel fuel text chunkSize overlap = Some chunks ->
  forall chunk, In chunk chunks ->
    chunk <> [] /\ trimmed chunk /\
    exists off, occurs_at chunk (cleanText text) off.
Proof.
  unfold chunkText_fuel.
  destruct (chunk_windows fuel (cleanText text) chunkSize overlap 0)
    as [ws|] eqn:Hws; [|discriminate].
  intros [= <-] chunk Hin.
  apply pushed_In in Hin as (w & Hw & -> & Hne).
  split; [exact Hne|]. split; [apply trim_trimmed|].
  destruct (chunk_windows_occur _ _ _ _ _ _ Hws w Hw) as [o2 Ho2].
  destruct (trim_occurs w) as [o1 Ho1].
  exists (o1 + o2)%nat. exact (occurs_at_trans _ _ _ _ _ Ho1 Ho2).
Qed.

Lemma chunks_are_trimmed_pieces_witness :
  forall chunk, In chunk [of_string "ab"; of_string "cd"] ->
    chunk <> [] /\ trimmed chunk /\
    exists off, occurs_at chunk (cleanText gap_text) off.
Proof.
  apply (chunks_are_trimmed_pieces 5 gap_text 3 0). reflexivity.
Defined.

(** X4: a text made of white space only (the empty text included) gives no
    chunk, and the loop does not iterate, whatever the parameters. *)
Theorem chunkText_white_space_only (text : jsstring) (chunkSize overlap : Z) :
  forallb is_space text = true ->
  cleanText text = [] /\
  chunkText text chunkSize overlap = Some [] /\
  iterations text chunkSize overlap = Some 0%nat.
Proof.
  intros Hws.
  assert (Hclean : cleanText text = []).
  { rewrite cleanText_unfold. unfold replace_runs.
    destruct (replace_runs_all_space false text Hws) as [-> | ->];
      reflexivity. }
  unfold chunkText, iterations, chunkText_fuel, iterations_fuel.
  rewrite Hclean. repeat split; reflexivity.
Qed.

Lemma chunkText_white_space_only_witness :
  cleanText (of_string "   ") = [] /\
  chunkText (of_string "   ") 1000 200 = Some [] /\
  iterations (of_string "   ") 1000 200 = Some 0%nat.
Proof.
  apply (chunkText_white_space_only (of_string "   ") 1000 200). reflexivity.
Defined.

(** X5: a text whose normalized form is not empty and fits in one window
    gives exactly one chunk, the normalized text itself, whatever the
    overlap. *)
Theorem chunkText_single_chunk (text : jsstring) (chunkSize overlap : Z) :
  0 < jslength (cleanText text) <= chunkSize ->
  chunkText text chunkSize overlap = Some [cleanText text].
Proof.
  intros Hlen. unfold chunkText, chunkText_fuel.
  set (clean := cleanText text) in *.
  assert (Htrim : trim clean = clean)
    by (apply trimmed_fixed, cleanText_trimmed).
  destruct clean as [|c r] eqn:Ec; [cbn in Hlen; lia|].
  rewrite <- Ec in *. clear Ec c r.
  assert (Hfuel : exists n, List.length clean = S n).
  { unfold jslength in Hlen. destruct (List.length clean); [lia | eauto]. }
  destruct Hfuel as [n ->]. cbn [chunk_windows].
  destruct (Z.ltb_spec 0 (jslength clean)); [|lia].
  unfold chunk_step. rewrite Z.add_0_l, Z.min_r by lia.
  rewrite Z.ltb_irrefl.
  rewrite slice_inside by lia. rewrite Z.sub_0_r.
  change (Z.to_nat 0) with 0%nat. cbn [skipn].
  unfold jslength at 1. rewrite Nat2Z.id, firstn_all.
  destruct n; cbn [chunk_windows]; rewrite Z.ltb_irrefl;
    cbn [option_map pushed flat_map]; unfold push_chunk;
    rewrite Htrim, app_nil_r;
    (destruct (Z.ltb_spec 0 (jslength clean)); [reflexivity | lia]).
Qed.

Lemma chunkText_single_chunk_witness :
  chunkText (of_string "  Describe   your hometown. ") 1000 200
  = Some [cleanText (of_string "  Describe   your hometown. ")].
Proof.
  apply (chunkText_single_chunk (of_string "  Describe   your hometown. ")
                                1000 200).
  vm_compute. split; [reflexivity | discriminate].
Defined.

(** X6: [chunkText] has no guard on its parameters: with
    [overlap = chunkSize] and a normalized text longer than [chunkSize]
    that holds no period, the start index never moves and the loop does
    not end, however much fuel it is given. *)
Theorem chunkText_no_progress (text : jsstring) (chunkSize : Z) :
  0 <= chunkSize < jslength (cleanText text) ->
  ~ In period (cleanText text) ->
  forall fuel, chunkText_fuel fuel text chunkSize chunkSize = None.
Proof.
  intros Hlen Hperiod fuel. unfold chunkText_fuel.
  set (clean := cleanText text) in *.
  assert (Hnewline : ~ In newline clean).
  { intros Hin.
    pose proof (spaced_no_newline false _ newline (cleanText_spaced text) Hin).
    discriminate. }
  assert (Hstep : chunk_step clean chunkSize chunkSize 0
                  = (slice clean 0 chunkSize, 0)).
  { unfold chunk_step. rewrite Z.add_0_l, Z.min_l by lia.
    destruct (Z.ltb_spec chunkSize (jslength clean)); [|lia].
    rewrite !lastIndexOf_absent
      by (intros Hin; apply slice_In in Hin; contradiction).
    destruct (Z.ltb_spec chunkSize (2 * Z.max (-1) (-1))); [lia|].
    now rewrite Z.sub_diag. }
  assert (Hloop : chunk_windows fuel clean chunkSize chunkSize 0 = None).
  { induction fuel as [|fuel IH]; cbn [chunk_windows];
      (destruct (Z.ltb_spec 0 (jslength clean)); [|lia]); [reflexivity|].
    now rewrite Hstep, IH. }
  now rewrite Hloop.
Qed.

Lemma chunkText_no_progress_witness :
  forall fuel, chunkText_fuel fuel (of_string "abcdef") 3 3 = None.
Proof.
  apply (chunkText_no_progress (of_string "abcdef") 3).
  - vm_compute. split; [discriminate | reflexivity].
  - vm_compute. intuition discriminate.
Defined.

(* ================================================================== *)
(** * Further properties of the embedder *)
(* ================================================================== *)

Import EmbedderMore.

(** X7: the errors of [generateEmbeddings].  Without an API key it throws
    ['API Key required for generating embeddings'] before anything else
    happens.  With a key, whatever goes wrong in a batch reaches the caller
    as the one error ['Failed to generate embeddings']: the cause is written
    to the console and the vectors of the earlier batches are dropped. *)
Theorem generateEmbeddings_errors
        {api : EmbeddingApi} (chunks : list jsstring)
        (apiKey : option jsstring) (w : World) :
  (truthy apiKey = false ->
   generateEmbeddings chunks apiKey w
   = (Throw (Error (js "API Key required for generating embeddings")), w)) /\
  (truthy apiKey = true ->
   forall e w',
     generateEmbeddings chunks apiKey w = (Throw e, w') ->
     e = Error (js "Failed to generate embeddings") /\
     chroma w' = chroma w /\
     exists cause,
       last (console w') {| level := Log; args := [] |}
       = {| level := ErrorLevel;
            args := [LStr (js "Error generating embeddings:");
                     LExn cause] |}).
Proof.
  split.
  - destruct apiKey as [[|c key]|]; cbn; intros H;
      [reflexivity | discriminate | reflexivity].
  - destruct apiKey as [[|c key]|]; cbn [truthy]; try discriminate.
    intros _ e w'. unfold generateEmbeddings, try_catch.
    destruct (embed_batches (c :: key) chunks 0 [] w) as [[vs | cause] w1] eqn:Hrun;
      [discriminate|].
    destruct (embed_batches_throw _ _ _ _ _ _ _ Hrun) as [Hc _].
    cbn. intros [= <- <-]. repeat split; [exact Hc|].
    exists cause. cbn [console with_console]. apply last_last.
Qed.

Lemma generateEmbeddings_errors_witness :
  @generateEmbeddings sample_embedding_api sample_chunks (Some []) fresh_world
  = (Throw (Error (js "API Key required for generating embeddings")),
     fresh_world) /\
  fst (@generateEmbeddings failing_embedding_api sample_chunks
         (Some (js "sk-test")) fresh_world)
  = Throw (Error (js "Failed to generate embeddings")).
Proof.
  split.
  - apply (proj1 (@generateEmbeddings_errors sample_embedding_api
                    sample_chunks (Some []) fresh_world)).
    reflexivity.
  - destruct (proj2 (@generateEmbeddings_errors failing_embedding_api
                       sample_chunks (Some (js "sk-test")) fresh_world)
                    eq_refl
                    (Error (js "Failed to generate embeddings"))
                    (snd (@generateEmbeddings failing_embedding_api
                            sample_chunks (Some (js "sk-test")) fresh_world)))
      as (_ & _ & _); reflexivity.
Defined.

(** X8: a call of [generateEmbeddings] that returns has sent the texts in
    [ceil(n / 20)] batches, writing one console line for each, and has not
    touched the index; for no text at all it returns the empty list
    without any request or output. *)
Theorem generateEmbeddings_batches
        {api : EmbeddingApi} (chunks : list jsstring) (key : jsstring)
        (w w' : World) (embeddings : list Embedding) :
  key <> [] ->
  generateEmbeddings chunks (Some key) w = (Ok embeddings, w') ->
  List.length (console w')
  = (List.length (console w) + (List.length chunks + 19) / 20)%nat /\
  chroma w' = chroma w /\
  (chunks = [] -> embeddings = [] /\ w' = w).
Proof.
  intros Hkey. destruct key as [|c key]; [congruence|].
  unfold generateEmbeddings, try_catch.
  destruct (embed_batches (c :: key) chunks 0 [] w) as [[vs | cause] w1] eqn:Hrun;
    [|discriminate].
  intros [= <- <-].
  destruct (embed_batches_lines _ _ _ _ _ _ _ Hrun) as (Hlen & Hc & _).
  rewrite Nat.sub_0_r in Hlen. split; [exact Hlen|]. split; [exact Hc|].
  intros ->. rewrite embed_batches_equation_1 in Hrun. cbn in Hrun.
  now injection Hrun as <- <-.
Qed.

Lemma generateEmbeddings_batches_witness :
  List.length
    (console (snd (@generateEmbeddings sample_embedding_api sample_chunks
                     (Some (js "sk-test")) fresh_world)))
  = (List.length (console fresh_world)
     + (List.length sample_chunks + 19) / 20)%nat.
Proof.
  apply (@generateEmbeddings_batches sample_embedding_api sample_chunks
           (js "sk-test") fresh_world
           (snd (@generateEmbeddings sample_embedding_api sample_chunks
                   (Some (js "sk-test")) fresh_world))
           (match fst (@generateEmbeddings sample_embedding_api sample_chunks
                         (Some (js "sk-test")) fresh_world) with
            | Ok vs => vs
            | Throw _ => []
            end)).
  - discriminate.
  - vm_compute. reflexivity.
Defined.

(* ================================================================== *)
(** * Further properties of the vector index *)
(* ================================================================== *)

Import VectorStoreAdd StoreMore MoreSamples.

(** X9: [getCollection] keeps the handle it obtained: once [collection] is
    set it returns without asking the storage collaborator or writing to
    the console, so a second call changes nothing; a failed attempt is
    rethrown as it is and is not remembered, so the next call asks
    again. *)
Theorem getCollection_caches {storage : StorageApi} (w : World) :
  (collection w = true -> getCollection w = (Ok tt, w)) /\
  (forall w', getCollection w = (Ok tt, w') ->
              collection w' = true /\ chroma w' = chroma w /\
              getCollection w' = (Ok tt, w')) /\
  (forall e w', getCollection w = (Throw e, w') ->
                getOrCreateCollection = Throw e /\
                collection w' = false /\ chroma w' = chroma w).
Proof.
  unfold getCollection.
  destruct (collection w) eqn:Hc.
  - split; [reflexivity|]. split.
    + intros w' [= <-]. rewrite Hc. now repeat split.
    + intros e w' H. discriminate.
  - split; [discriminate|].
    unfold try_catch, bind, call, console_log, console_error, log_line, throw.
    destruct getOrCreateCollection as [[] | cause]; cbn; split.
    + intros w' [= <-]. cbn. now repeat split.
    + intros e w' H. discriminate.
    + intros w' H. discriminate.
    + intros e w' [= <- <-]. cbn. now repeat split.
Qed.

Lemma getCollection_caches_witness :
  @getCollection empty_storage indexed_world = (Ok tt, indexed_world) /\
  collection (snd (@getCollection empty_storage fresh_world)) = true /\
  collection (snd (@getCollection unreachable_storage fresh_world)) = false.
Proof.
  split; [|split].
  - apply (proj1 (@getCollection_caches empty_storage indexed_world)).
    reflexivity.
  - apply (proj1 (proj2 (@getCollection_caches empty_storage fresh_world))
                 (snd (@getCollection empty_storage fresh_world))).
    reflexivity.
  - apply (proj2 (proj2 (@getCollection_caches unreachable_storage
                           fresh_world))
                 unreachable
                 (snd (@getCollection unreachable_storage fresh_world))).
    reflexivity.
Defined.

(** X10: [listDocuments] returns one row per document: the [documentId]s
    of its rows are distinct, they are exactly the [documentId]s stored
    with some chunk, and each row carries the file name, upload time and
    chunk total of the first chunk of its document in the order of the
    collection. *)
Theorem listDocuments_one_row_per_document
        (nearest : list ChunkRecord -> Embedding -> Z -> list QueryHit)
        (w : World) :
  exists rows w',
    @listDocuments (reference_storage nearest) w = (Ok rows, w') /\
    NoDup (map doc_documentId rows) /\
    (forall d, In d (map doc_documentId rows)
               <-> exists r, In r (chroma w) /\
                             documentId (rec_metadata r) = d) /\
    (forall row, In row rows ->
       exists m,
         first_of (doc_documentId row) (map rec_metadata (chroma w)) = Some m /\
         row = {| doc_documentId := documentId m;
                  doc_fileName := fileName m;
                  doc_uploadedAt := uploadedAt m;
                  doc_totalChunks := totalChunks m |}).
Proof.
  destruct (listDocuments_rows nearest w) as (w' & Hrun & _).
  destruct (rows_spec (map rec_metadata (chroma w))) as (Hnd & Hids & Hfirst).
  eexists. exists w'. split; [exact Hrun|]. split; [exact Hnd|].
  split; [|exact Hfirst].
  intros d. rewrite Hids, map_map, in_map_iff. split.
  - intros (r & Hd & Hr). now exists r.
  - intros (r & Hr & Hd). now exists r.
Qed.

(** X11: the figures of [getStats]: [totalChunks] is the number of
    records, [totalDocuments] is the number of rows of [documents], there
    are never more documents than chunks, and there is no document exactly
    when there is no chunk. *)
Theorem getStats_counts
        (nearest : list ChunkRecord -> Embedding -> Z -> list QueryHit)
        (w : World) :
  exists stats w',
    @getStats (reference_storage nearest) w = (Ok stats, w') /\
    stats_totalChunks stats = Z.of_nat (List.length (chroma w)) /\
    stats_totalDocuments stats
    = Z.of_nat (List.length (stats_documents stats)) /\
    0 <= stats_totalDocuments stats <= stats_totalChunks stats /\
    (stats_totalDocuments stats = 0 <-> stats_totalChunks stats = 0).
Proof.
  unfold getStats, try_catch, bind.
  destruct (getCollection_reference nearest w) as (w1 & -> & Hw1).
  cbn [coll_count reference_storage].
  destruct (listDocuments_rows nearest w1) as (w2 & -> & _).
  rewrite Hw1. cbn [ret].
  destruct (rows_spec (map rec_metadata (chroma w))) as (Hnd & Hids & _).
  set (rows := map snd (group_documents [] (map rec_metadata (chroma w)))) in *.
  eexists. eexists. split; [reflexivity|].
  cbn [stats_totalChunks stats_totalDocuments stats_documents].
  assert (Hle : (List.length rows <= List.length (chroma w))%nat).
  { rewrite <- (length_map doc_documentId rows).
    rewrite <- (length_map rec_metadata (chroma w)).
    rewrite <- (length_map documentId (map rec_metadata (chroma w))).
    apply NoDup_incl_length; [exact Hnd|].
    intros d Hd. now apply Hids. }
  assert (Hzero : List.length rows = 0%nat -> List.length (chroma w) = 0%nat).
  { destruct (chroma w) as [|r rs]; [reflexivity|]. intros Hrows.
    assert (Hin : In (documentId (rec_metadata r)) (map doc_documentId rows))
      by (apply Hids; now left).
    destruct rows; [contradiction | discriminate]. }
  repeat split; lia.
Qed.

(** X12: the index is a required dependency: when the collection cannot
    be obtained, [searchSimilar], [deleteDocument], [listDocuments] and
    [getStats] each throw the error of the storage collaborator as it is,
    leave the records alone, and leave [collection] unset. *)
Theorem storage_failure_is_rethrown
        {storage : StorageApi} (e : Exn) (w : World)
        (queryEmbedding : Embedding) (nResults : option Z) (d : jsstring) :
  getOrCreateCollection = Throw e -> collection w = false ->
  (fst (searchSimilar queryEmbedding nResults w) = Throw e /\
   fst (deleteDocument d w) = Throw e /\
   fst (listDocuments w) = Throw e /\
   fst (getStats w) = Throw e) /\
  (chroma (snd (searchSimilar queryEmbedding nResults w)) = chroma w /\
   chroma (snd (deleteDocument d w)) = chroma w /\
   chroma (snd (listDocuments w)) = chroma w /\
   chroma (snd (getStats w)) = chroma w) /\
  (collection (snd (searchSimilar queryEmbedding nResults w)) = false /\
   collection (snd (deleteDocument d w)) = false /\
   collection (snd (listDocuments w)) = false /\
   collection (snd (getStats w)) = false).
Proof.
  intros Hfail Hc.
  unfold searchSimilar, deleteDocument, listDocuments, getStats, getCollection,
    try_catch, bind, call, console_error, log_line, throw.
  rewrite Hc, Hfail. cbn. repeat split; exact Hc.
Qed.

Lemma storage_failure_is_rethrown_witness :
  fst (@deleteDocument unreachable_storage (js "doc_1") fresh_world)
  = Throw unreachable /\
  fst (@getStats unreachable_storage fresh_world) = Throw unreachable.
Proof.
  destruct (@storage_failure_is_rethrown unreachable_storage unreachable
              fresh_world [] None (js "doc_1") eq_refl eq_refl)
    as ((_ & Hd & _ & Hs) & _).
  split; [exact Hd | exact Hs].
Defined.

(** X13: what [addDocuments] writes.  With as many embeddings as chunks
    and a storage collaborator that stores what it is given, the
    collection gains one record per chunk, after the records it held; the
    ids [documentId_chunk_i] of the new records are distinct, and the
    record at position [i] holds the chunk and the embedding at position
    [i], the ordinal [i], the number of chunks as [totalChunks], and the
    file name and upload time passed in (['unknown'] and the current time
    when they are missing). *)
Theorem addDocuments_writes
        (nearest : list ChunkRecord -> Embedding -> Z -> list QueryHit)
        {adding : StorageAddApi} (now : jsstring) (chunks : list jsstring)
        (embeddings : list Embedding) (d : jsstring)
        (metadata_fileName metadata_uploadedAt : option jsstring)
        (w : World) :
  appends adding -> List.length embeddings = List.length chunks ->
  exists new w',
    @addDocuments (reference_storage nearest) adding now chunks embeddings d
                  metadata_fileName metadata_uploadedAt w = (Ok tt, w') /\
    chroma w' = chroma w ++ new /\
    List.length new = List.length chunks /\
    NoDup (map rec_id new) /\
    forall i chunk,
      nth_error chunks i = Some chunk ->
      exists e,
        nth_error embeddings i = Some e /\
        nth_error new i
        = Some {| rec_id := d ++ js "_chunk_" ++ Z_to_js (Z.of_nat i);
                  rec_embedding := e;
                  rec_metadata :=
                    {| documentId := d;
                       chunkIndex := Z.of_nat i;
                       totalChunks := Z.of_nat (List.length chunks);
                       fileName :=
                         if truthy metadata_fileName
                         then match metadata_fileName with
                              | Some f => f
                              | None => []
                              end
                         else js "unknown";
                       uploadedAt :=
                         if truthy metadata_uploadedAt
                         then match metadata_uploadedAt with
                              | Some u => u
                              | None => []
                              end
                         else now;
                       text := chunk |};
                  rec_document := chunk |}.
Proof.
  intros Hadd Hlen.
  set (f := match js_or metadata_fileName (Some (js "unknown")) with
            | Some x => x
            | None => []
            end).
  set (u := match js_or metadata_uploadedAt (Some now) with
            | Some x => x
            | None => []
            end).
  set (ids := chunk_ids_from d 0 chunks).
  set (metadatas := chunk_metadatas_from d f u (List.length chunks) 0 chunks).
  assert (Hids : List.length ids = List.length chunks)
    by apply chunk_ids_length.
  assert (Hms : List.length metadatas = List.length chunks)
    by apply chunk_metadatas_length.
  exists (records_of ids embeddings metadatas chunks).
  unfold addDocuments, try_catch, bind.
  destruct (getCollection_reference nearest w) as (w1 & -> & Hw1).
  fold f u ids metadatas.
  rewrite (Hadd (chroma w1) ids embeddings metadatas chunks) by congruence.
  eexists. split; [reflexivity|].
  cbn [chroma with_chroma with_console]. rewrite Hw1.
  split; [reflexivity|].
  assert (Hrec : map rec_id (records_of ids embeddings metadatas chunks) = ids)
    by (apply records_of_ids; congruence).
  split; [|split].
  - rewrite <- (length_map rec_id), Hrec. exact Hids.
  - rewrite Hrec. apply chunk_ids_distinct.
  - intros i chunk Hi.
    destruct (records_of_nth d f u (List.length chunks) chunks embeddings
                0 i chunk Hlen Hi) as (e & He & Hnth).
    exists e. split; [exact He|].
    fold ids metadatas in Hnth. rewrite Hnth. cbn [Nat.add].
    unfold chunk_id, chunk_metadata, f, u, js_or.
    destruct (truthy metadata_fileName), (truthy metadata_uploadedAt);
      reflexivity.
Qed.

Lemma addDocuments_writes_witness :
  exists new w',
    @addDocuments empty_storage appending_storage
                  (js "2025-01-02T00:00:00.000Z") new_chunks new_embeddings
                  (js "doc_3") (Some (js "travel.pdf")) None indexed_world
    = (Ok tt, w') /\
    chroma w' = chroma indexed_world ++ new /\
    List.length new = List.length new_chunks /\
    NoDup (map rec_id new).
Proof.
  destruct (addDocuments_writes (fun _ _ _ => [])
              (adding := appending_storage)
              (js "2025-01-02T00:00:00.000Z") new_chunks new_embeddings
              (js "doc_3") (Some (js "travel.pdf")) None indexed_world)
    as (new & w' & Hrun & Hc & Hlen & Hnd & _).
  - intros records ids embeddings metadatas documents _ _ _. reflexivity.
  - reflexivity.
  - exists new, w'. repeat split; assumption.
Defined.

(** X14: storing a document and deleting it again restores the collection:
    when no record of the collection belongs to [documentId] or carries one
    of its chunk ids, [deleteDocument] after [addDocuments] leaves exactly
    the records that were there before. *)
Theorem addDocuments_then_deleteDocument
        (nearest : list ChunkRecord -> Embedding -> Z -> list QueryHit)
        {adding : StorageAddApi} (now : jsstring) (chunks : list jsstring)
        (embeddings : list Embedding) (d : jsstring)
        (metadata_fileName metadata_uploadedAt : option jsstring)
        (w : World) :
  appends adding -> List.length embeddings = List.length chunks ->
  NoDup (map rec_id (chroma w)) ->
  (forall r, In r (chroma w) -> documentId (rec_metadata r) <> d) ->
  (forall r, In r (chroma w) -> ~ In (rec_id r) (chunk_ids_from d 0 chunks)) ->
  exists w1 w2,
    @addDocuments (reference_storage nearest) adding now chunks embeddings d
                  metadata_fileName metadata_uploadedAt w = (Ok tt, w1) /\
    @deleteDocument (reference_storage nearest) d w1 = (Ok tt, w2) /\
    chroma w2 = chroma w.
Proof.
  intros Hadd Hlen Hnd Hother Hfresh.
  set (f := match js_or metadata_fileName (Some (js "unknown")) with
            | Some x => x
            | None => []
            end).
  set (u := match js_or metadata_uploadedAt (Some now) with
            | Some x => x
            | None => []
            end).
  set (ids := chunk_ids_from d 0 chunks).
  set (metadatas := chunk_metadatas_from d f u (List.length chunks) 0 chunks).
  set (new := records_of ids embeddings metadatas chunks).
  assert (Hids : List.length ids = List.length chunks)
    by apply chunk_ids_length.
  assert (Hms : List.length metadatas = List.length chunks)
    by apply chunk_metadatas_length.
  assert (Hrec : map rec_id new = ids)
    by (apply records_of_ids; congruence).
  assert (Hrun : exists w1,
             @addDocuments (reference_storage nearest) adding now chunks
                           embeddings d metadata_fileName metadata_uploadedAt w
             = (Ok tt, w1) /\ chroma w1 = chroma w ++ new).
  { unfold addDocuments, try_catch, bind.
    destruct (getCollection_reference nearest w) as (w1 & -> & Hw1).
    fold f u ids metadatas.
    rewrite (Hadd (chroma w1) ids embeddings metadatas chunks) by congruence.
    eexists. split; [reflexivity|]. cbn. now rewrite Hw1. }
  destruct Hrun as (w1 & Hrun & Hw1).
  assert (Hnd1 : NoDup (map rec_id (chroma w1))).
  { rewrite Hw1, map_app, Hrec. apply NoDup_app;
      [exact Hnd | apply chunk_ids_distinct|].
    intros i Hi. apply in_map_iff in Hi as (r & <- & Hr). exact (Hfresh r Hr). }
  destruct (deleteDocument_reference nearest d w1 Hnd1) as (w2 & Hdel & Hleft).
  exists w1, w2. split; [exact Hrun|]. split; [exact Hdel|].
  rewrite Hleft, Hw1, filter_app.
  assert (Hold : filter (fun r => negb (matches (Some d) r)) (chroma w)
                 = chroma w).
  { apply filter_none_left.
    destruct (filter (matches (Some d)) (chroma w)) as [|r rs] eqn:E;
      [reflexivity|].
    assert (Hr : In r (filter (matches (Some d)) (chroma w)))
      by (rewrite E; now left).
    apply filter_In in Hr as [Hr Hm]. apply matches_true in Hm.
    now destruct (Hother r Hr). }
  assert (Hnew : filter (fun r => negb (matches (Some d) r)) new = []).
  { destruct (filter _ new) as [|r rs] eqn:E; [reflexivity|].
    assert (Hr : In r (filter (fun r => negb (matches (Some d) r)) new))
      by (rewrite E; now left).
    apply filter_In in Hr as [Hr Hm].
    apply records_of_documents in Hr.
    apply (proj2 (matches_true d r)) in Hr. rewrite Hr in Hm. discriminate. }
  now rewrite Hold, Hnew, app_nil_r.
Qed.

Lemma addDocuments_then_deleteDocument_witness :
  exists w1 w2,
    @addDocuments empty_storage appending_storage
                  (js "2025-01-02T00:00:00.000Z") new_chunks new_embeddings
                  (js "doc_3") (Some (js "travel.pdf")) None indexed_world
    = (Ok tt, w1) /\
    @deleteDocument empty_storage (js "doc_3") w1 = (Ok tt, w2) /\
    chroma w2 = chroma indexed_world.
Proof.
  apply (addDocuments_then_deleteDocument (fun _ _ _ => [])
           (adding := appending_storage)).
  - intros records ids embeddings metadatas documents _ _ _. reflexivity.
  - reflexivity.
  - repeat constructor; cbn; intuition discriminate.
  - intros r [<- | [<- | [<- | []]]]; discriminate.
  - intros r [<- | [<- | [<- | []]]]; cbn; intuition discriminate.
Defined.
